(** * Real-estate taxes and mail franking: a shallow embedding

    The two Python modules [buildings.py] and [mail.py] are embedded as Rocq
    functions.  Python [int] is [Z]; Python [float] is IEEE binary64, taken
    from the primitive floats of the Standard Library; [str] is [string].
    An operation that can raise returns a value of [res]. *)

From Stdlib Require Import ZArith Floats Lia DecimalString DecimalPos DecimalZ.
From stdpp Require Import base option list strings.

Set Warnings "-inexact-float".

Local Open Scope Z_scope.

(** ** Exceptions and Python numbers *)

(** The exceptions the two modules can raise.  [NoSuchObject] is not a Python
    exception: it is what a lookup of an identifier outside the heap gives,
    which no reference of a running program does. *)
Inductive exn : Set :=
| OverflowError
| ValueError
| NoSuchObject.

Inductive res (A : Type) : Type :=
| Ok (a : A)
| Raise (e : exn).
Arguments Ok {A} a.
Arguments Raise {A} e.

#[global] Instance res_ret : MRet res := fun A a => Ok a.
#[global] Instance res_bind : MBind res := fun A B k m =>
  match m with
  | Ok a => k a
  | Raise e => Raise e
  end.
#[global] Instance res_fmap : FMap res := fun A B g m =>
  match m with
  | Ok a => Ok (g a)
  | Raise e => Raise e
  end.

(** The operation returned a value: it raised nothing. *)
Definition is_Ok {A} (m : res A) : Prop := exists a, m = Ok a.

(** [for x in l: ys.append(k(x))], stopping at the first exception. *)
Fixpoint res_mapM {A B} (k : A -> res B) (l : list A) : res (list B) :=
  match l with
  | [] => Ok []
  | x :: l' => y ← k x; ys ← res_mapM k l'; Ok (y :: ys)
  end.

(** Conversion of an [int] to a [float], as every mixed [int]/[float]
    operation does it: rounded to the nearest double, ties to even, and
    [OverflowError] when the rounded value is not finite. *)
Definition float_of_int (z : Z) : res float :=
  let f := SF2Prim (binary_normalize prec emax z 0 false) in
  if PrimFloat.is_infinity f then Raise OverflowError else Ok f.

(** A number a function of the modules returns: [sum] of an empty list is
    the [int] 0, of a list of floats a [float]. *)
Inductive pynum : Set :=
| PyInt (z : Z)
| PyFloat (f : float).

Definition py_add (a b : pynum) : res pynum :=
  match a, b with
  | PyInt x, PyInt y => Ok (PyInt (x + y))
  | PyInt x, PyFloat g => f ← float_of_int x; Ok (PyFloat (f + g)%float)
  | PyFloat f, PyInt y => g ← float_of_int y; Ok (PyFloat (f + g)%float)
  | PyFloat f, PyFloat g => Ok (PyFloat (f + g)%float)
  end.

Definition py_sub (a b : pynum) : res pynum :=
  match a, b with
  | PyInt x, PyInt y => Ok (PyInt (x - y))
  | PyInt x, PyFloat g => f ← float_of_int x; Ok (PyFloat (f - g)%float)
  | PyFloat f, PyInt y => g ← float_of_int y; Ok (PyFloat (f - g)%float)
  | PyFloat f, PyFloat g => Ok (PyFloat (f - g)%float)
  end.

(** The exact value of a finite double [(-1)^s * m * 2^e] compared with an
    integer, which is how [==] compares an [int] with a [float]. *)
Definition int_eq_float (z : Z) (f : float) : bool :=
  match Prim2SF f with
  | S754_zero _ => z =? 0
  | S754_finite s m e =>
      let v := if s then Z.neg m else Z.pos m in
      if 0 <=? e then z =? v * 2 ^ e else z * 2 ^ (- e) =? v
  | _ => false
  end.

(** Python's [==] on numbers. *)
Definition py_eq (a b : pynum) : bool :=
  match a, b with
  | PyInt x, PyInt y => x =? y
  | PyInt x, PyFloat g => int_eq_float x g
  | PyFloat f, PyInt y => int_eq_float y f
  | PyFloat f, PyFloat g => PrimFloat.eqb f g
  end.

(** The builtin [sum]: the items are added from left to right, starting
    from the [int] 0. *)
Definition py_sum (l : list pynum) : res pynum :=
  foldl (fun acc x => a ← acc; py_add a x) (Ok (PyInt 0)) l.

(** The interpreter's limit on the number of digits of an [int] that is
    converted to a [str] (its default; [sys.set_int_max_str_digits] can
    change it). *)
Definition INT_MAX_STR_DIGITS : Z := 4300.

(** [str] of an [int], which is how an f-string formats one: the decimal
    digits, with a minus sign when negative, and [ValueError] when there
    are more digits than [INT_MAX_STR_DIGITS]. *)
Definition str_of_int (z : Z) : res string :=
  if Z.abs z <? 10 ^ INT_MAX_STR_DIGITS
  then Ok (NilZero.string_of_int (Z.to_int z))
  else Raise ValueError.

(** ** mail.py *)

Module Mail.

Definition MAX_PARCEL_VOLUME : Z := 50.

Inductive DeliveryMode : Set := NORMAL | EXPRESS.

Definition DeliveryMode_str (self : DeliveryMode) : string :=
  match self with
  | NORMAL => "normal"
  | EXPRESS => "express"
  end.

Inductive Format : Set := A3 | A4 | A5.

(** [Format.__str__] returns the member's name. *)
Definition Format_str (self : Format) : string :=
  match self with
  | A3 => "A3"
  | A4 => "A4"
  | A5 => "A5"
  end.

(** The fields of the base class [Mail]. *)
Record Mail : Set := mkMail {
  weight_g : Z;
  delivery_mode : DeliveryMode;
  delivery_address : string
}.

(** The three concrete classes, each with the base fields and its own. *)
Inductive mail : Set :=
| Letter (base : Mail) (format : Format)
| Parcel (base : Mail) (volume : Z)
| Advertisement (base : Mail).

(** The inherited fields of a mail. *)
Definition base_of (m : mail) : Mail :=
  match m with
  | Letter b _ => b
  | Parcel b _ => b
  | Advertisement b => b
  end.

(** The mail [m] readdressed to [a], all other fields kept. *)
Definition with_address (m : mail) (a : string) : mail :=
  let readdress b := mkMail (weight_g b) (delivery_mode b) a in
  match m with
  | Letter b f => Letter (readdress b) f
  | Parcel b v => Parcel (readdress b) v
  | Advertisement b => Advertisement (readdress b)
  end.

(** [self.weight_g / 1000.0] *)
Definition weight_kg (self : Mail) : res float :=
  w ← float_of_int (weight_g self); Ok (w / 1000)%float.

(** [frank_normal] of [Letter], [Parcel] and [Advertisement]. *)
Definition frank_normal (self : mail) : res float :=
  match self with
  | Letter b format =>
      let base := match format with
                  | A5 => 1.50
                  | A4 => 2.50
                  | A3 => 3.50
                  end%float in
      w ← weight_kg b; Ok (base + w)%float
  | Parcel b volume =>
      v ← float_of_int volume;
      w ← weight_kg b; Ok (0.25 * v + w)%float
  | Advertisement b =>
      w ← weight_kg b; Ok (5.0 * w)%float
  end.

(** [Mail.frank], inherited by the three classes. *)
Definition frank (self : mail) : res float :=
  base ← frank_normal self;
  match delivery_mode (base_of self) with
  | NORMAL => Ok base
  | EXPRESS => Ok (2.0 * base)%float
  end.

(** [Mail.is_valid]: [self.delivery_address != ""]. *)
Definition Mail_is_valid (self : Mail) : bool :=
  negb (String.eqb (delivery_address self) "").

(** [is_valid] as each class has it: [Parcel] overrides it with
    [super().is_valid() and self.volume <= MAX_PARCEL_VOLUME]. *)
Definition is_valid (self : mail) : bool :=
  match self with
  | Letter b _ => Mail_is_valid b
  | Parcel b volume => Mail_is_valid b && (volume <=? MAX_PARCEL_VOLUME)
  | Advertisement b => Mail_is_valid b
  end.

Definition general_info_str (self : Mail) : res string :=
  w ← str_of_int (weight_g self);
  Ok (w +:+ " g, " +:+ DeliveryMode_str (delivery_mode self)
        +:+ ", pour '" +:+ delivery_address self +:+ "'").

Definition invalid_str_suffix (self : mail) : string :=
  if is_valid self then "" else " (invalide)".

(** [__str__] of the three classes.  The fields of the f-string are
    formatted from left to right, so the weight before the volume. *)
Definition str (self : mail) : res string :=
  match self with
  | Letter b f =>
      info ← general_info_str b;
      Ok ("Lettre : " +:+ info +:+ ", " +:+ Format_str f +:+ invalid_str_suffix self)
  | Parcel b volume =>
      info ← general_info_str b;
      v ← str_of_int volume;
      Ok ("Colis : " +:+ info +:+ ", " +:+ v +:+ " l" +:+ invalid_str_suffix self)
  | Advertisement b =>
      info ← general_info_str b;
      Ok ("Publicité : " +:+ info +:+ invalid_str_suffix self)
  end.

(** A [Mailbox] holds the list [__mails], in insertion order. *)
Record Mailbox : Set := mkMailbox {
  mails : list mail
}.

Definition Mailbox_init : Mailbox := mkMailbox [].

Definition add_mail (self : Mailbox) (m : mail) : Mailbox :=
  mkMailbox (mails self ++ [m]).

(** [[mail.frank() for mail in self.__mails if mail.is_valid()]] *)
Fixpoint valid_franks (l : list mail) : res (list float) :=
  match l with
  | [] => Ok []
  | m :: rest =>
      if is_valid m
      then x ← frank m; xs ← valid_franks rest; Ok (x :: xs)
      else valid_franks rest
  end.

Definition Mailbox_frank (self : Mailbox) : res pynum :=
  xs ← valid_franks (mails self); py_sum (PyFloat <$> xs).

(** [[mail for mail in self.__mails if not mail.is_valid()]] *)
Fixpoint invalid_list (l : list mail) : list mail :=
  match l with
  | [] => []
  | m :: rest => if negb (is_valid m) then m :: invalid_list rest else invalid_list rest
  end.

Definition invalid_mails (self : Mailbox) : Z :=
  Z.of_nat (length (invalid_list (mails self))).

(** [[str(mail) for mail in self.__mails]] *)
Definition display (self : Mailbox) : res (list string) := res_mapM str (mails self).

End Mail.

(** ** buildings.py *)

Module Buildings.

Definition LIVING_AREA_TAX_RATE : float := 5.6%float.
Definition GARDEN_AREA_TAX_RATE : float := 1.5%float.

(** Objects are known by their identifier: a [Person] by its index in the
    heap's list of persons, a [Building] by its index in the list of
    buildings.  Two buildings with the same fields stay different objects,
    which is what [list.remove] compares. *)
Abbreviation person_id := nat (only parsing).
Abbreviation building_id := nat (only parsing).

Record Person : Set := mkPerson {
  full_name : string;
  owned_buildings : list building_id
}.

Record Appartment : Set := mkAppartment {
  appartment_living_area : Z
}.

(** The fields each subclass of [Building] adds. *)
Inductive BuildingKind : Set :=
| House (house_living_area house_garden_area : Z)
| AppartmentBuilding (appartments : list Appartment).

Record Building : Set := mkBuilding {
  owner : person_id;
  kind : BuildingKind
}.

Record heap : Set := mkHeap {
  persons : list Person;
  buildings : list Building
}.

Definition empty_heap : heap := mkHeap [] [].

Definition get_person (h : heap) (p : person_id) : res Person :=
  match persons h !! p with
  | Some per => Ok per
  | None => Raise NoSuchObject
  end.

Definition get_building (h : heap) (b : building_id) : res Building :=
  match buildings h !! b with
  | Some bd => Ok bd
  | None => Raise NoSuchObject
  end.

Definition set_owned (h : heap) (p : person_id) (l : list building_id) : res heap :=
  per ← get_person h p;
  Ok (mkHeap (<[p := mkPerson (full_name per) l]> (persons h)) (buildings h)).

(** [Person(full_name)]: a new person, owning nothing. *)
Definition Person_init (name : string) (h : heap) : person_id * heap :=
  (length (persons h), mkHeap (persons h ++ [mkPerson name []]) (buildings h)).

(** [Building.__init__], followed by the subclass storing its own fields:
    the owner is recorded and the new building is appended to the owner's
    list. *)
Definition Building_init (initial_owner : person_id) (k : BuildingKind) (h : heap)
  : res (building_id * heap) :=
  let self := length (buildings h) in
  per ← get_person h initial_owner;
  h' ← set_owned (mkHeap (persons h) (buildings h ++ [mkBuilding initial_owner k]))
         initial_owner (owned_buildings per ++ [self]);
  Ok (self, h').

Definition House_init (initial_owner : person_id) (living garden : Z) :=
  Building_init initial_owner (House living garden).

(** The list of appartments is copied, so the building keeps its own. *)
Definition AppartmentBuilding_init (initial_owner : person_id) (apps : list Appartment) :=
  Building_init initial_owner (AppartmentBuilding apps).

(** [list.remove(x)]: the first item equal to [x] is removed; [ValueError]
    when there is none. *)
Fixpoint list_remove (x : building_id) (l : list building_id) : res (list building_id) :=
  match l with
  | [] => Raise ValueError
  | y :: l' => if decide (y = x) then Ok l' else cons y <$> list_remove x l'
  end.

Definition owner_get (self : building_id) (h : heap) : res person_id :=
  owner <$> get_building h self.

(** The setter of [owner]:
    [self.__owner.owned_buildings.remove(self)], then
    [self.__owner = new_owner], then
    [new_owner.owned_buildings.append(self)].
    The new owner's list is read after the removal, so a transfer to the
    current owner works on the list the building was just removed from. *)
Definition owner_set (self : building_id) (new_owner : person_id) (h : heap) : res heap :=
  bd ← get_building h self;
  old ← get_person h (owner bd);
  l ← list_remove self (owned_buildings old);
  h1 ← set_owned h (owner bd) l;
  let h2 := mkHeap (persons h1) (<[self := mkBuilding new_owner (kind bd)]> (buildings h1)) in
  new ← get_person h2 new_owner;
  set_owned h2 new_owner (owned_buildings new ++ [self]).

(** [sum] of a list of [int]s. *)
Definition int_sum (l : list Z) : Z := foldl Z.add 0 l.

Definition living_area (self : Building) : Z :=
  match kind self with
  | House living _ => living
  | AppartmentBuilding apps => int_sum (appartment_living_area <$> apps)
  end.

Definition garden_area (self : Building) : Z :=
  match kind self with
  | House _ garden => garden
  | AppartmentBuilding _ => 0
  end.

Definition compute_taxes_for_building (building : Building) : res float :=
  la ← float_of_int (living_area building);
  let living_area_taxes := (LIVING_AREA_TAX_RATE * la)%float in
  ga ← float_of_int (garden_area building);
  let garden_taxes := (GARDEN_AREA_TAX_RATE * ga)%float in
  Ok (living_area_taxes + garden_taxes)%float.

(** [[compute_taxes_for_building(building) for building in l]] *)
Definition building_taxes (h : heap) (l : list building_id) : res (list float) :=
  res_mapM (fun b => bd ← get_building h b; compute_taxes_for_building bd) l.

Definition compute_taxes (h : heap) (person : person_id) : res pynum :=
  per ← get_person h person;
  ts ← building_taxes h (owned_buildings per);
  py_sum (PyFloat <$> ts).

(** How often a building occurs in a list of buildings. *)
Definition occurrences (b : building_id) (l : list building_id) : nat :=
  length (filter (fun x => x = b) l).

(** The list [l] without the building [b]. *)
Definition without (b : building_id) (l : list building_id) : list building_id :=
  filter (fun x => x <> b) l.

(** The ownership invariant: a building is in the list of its owner, a
    list only holds buildings of its person, and holds none twice. *)
Record wf (h : heap) : Prop := mkWf {
  wf_owner : forall b bd, buildings h !! b = Some bd ->
    exists per, persons h !! owner bd = Some per /\ b ∈ owned_buildings per;
  wf_owned : forall p per b, persons h !! p = Some per -> b ∈ owned_buildings per ->
    exists bd, buildings h !! b = Some bd /\ owner bd = p;
  wf_nodup : forall p per, persons h !! p = Some per -> NoDup (owned_buildings per)
}.

(** The heaps a program reaches through the constructors and the setter
    of [owner], the only code that writes an [owned_buildings] list. *)
Inductive reachable : heap -> Prop :=
| reach_empty : reachable empty_heap
| reach_Person h name : reachable h -> reachable (Person_init name h).2
| reach_Building h initial_owner k self h' :
    reachable h -> Building_init initial_owner k h = Ok (self, h') -> reachable h'
| reach_owner_set h self new_owner h' :
    reachable h -> owner_set self new_owner h = Ok h' -> reachable h'.

(** What the transfer of [b] to [q] makes of the person [r]: [b] leaves
    the list, and joins the end of the list of [q]. *)
Definition moved (b : building_id) (q r : person_id) (per : Person) : Person :=
  mkPerson (full_name per)
    (without b (owned_buildings per) ++ if decide (r = q) then [b] else []).

(** What the construction of building [b] for [p] makes of the person [r]. *)
Definition acquired (b : building_id) (p r : person_id) (per : Person) : Person :=
  mkPerson (full_name per)
    (owned_buildings per ++ if decide (r = p) then [b] else []).

End Buildings.

(** ** The objects of the test-suite *)

Definition test_mailbox : Mail.Mailbox :=
  let m0 := Mail.Mailbox_init in
  let m1 := Mail.add_mail m0 (Mail.Letter (Mail.mkMail 180 Mail.NORMAL "dest") Mail.A5) in
  let m2 := Mail.add_mail m1 (Mail.Letter (Mail.mkMail 240 Mail.EXPRESS "") Mail.A4) in
  let m3 := Mail.add_mail m2 (Mail.Parcel (Mail.mkMail 1800 Mail.NORMAL "dest") 2) in
  let m4 := Mail.add_mail m3 (Mail.Parcel (Mail.mkMail 1800 Mail.NORMAL "") 2) in
  let m5 := Mail.add_mail m4 (Mail.Parcel (Mail.mkMail 15000 Mail.EXPRESS "dest") 200) in
  let m6 := Mail.add_mail m5 (Mail.Advertisement (Mail.mkMail 200 Mail.NORMAL "dest")) in
  Mail.add_mail m6 (Mail.Advertisement (Mail.mkMail 240 Mail.EXPRESS "")).

(** The heap of the test-suite before Bob buys the appartment building:
    Alice (person 0) owns a house (building 0) and an appartment building
    (building 1); Bob (person 1) owns nothing. *)
Definition test_heap : Buildings.heap :=
  Buildings.mkHeap
    [ Buildings.mkPerson "Alice" [0%nat; 1%nat]; Buildings.mkPerson "Bob" [] ]
    [ Buildings.mkBuilding 0%nat (Buildings.House 50 10);
      Buildings.mkBuilding 0%nat
        (Buildings.AppartmentBuilding
           [Buildings.mkAppartment 30; Buildings.mkAppartment 60]) ].

(** The same heap, built by the calls of the test. *)
Definition test_script : res Buildings.heap :=
  let '(alice, h) := Buildings.Person_init "Alice" Buildings.empty_heap in
  '(house, h) ← Buildings.House_init alice 50 10 h;
  '(app_building, h) ←
    Buildings.AppartmentBuilding_init alice
      [Buildings.mkAppartment 30; Buildings.mkAppartment 60] h;
  let '(bob, h) := Buildings.Person_init "Bob" h in
  Ok h.

(** Alice (person 0) owns three houses of 90, 170 and 20 m² without
    garden (buildings 0, 1 and 2); Bob (person 1) owns nothing. *)
Definition three_houses : Buildings.heap :=
  Buildings.mkHeap
    [ Buildings.mkPerson "Alice" [0%nat; 1%nat; 2%nat]; Buildings.mkPerson "Bob" [] ]
    [ Buildings.mkBuilding 0%nat (Buildings.House 90 0);
      Buildings.mkBuilding 0%nat (Buildings.House 170 0);
      Buildings.mkBuilding 0%nat (Buildings.House 20 0) ].

(** ** Notions used to state further properties *)

(** The last character of a string, if it has one. *)
Fixpoint last_char (s : string) : option Ascii.ascii :=
  match s with
  | EmptyString => None
  | String c s' =>
      match s' with
      | EmptyString => Some c
      | String _ _ => last_char s'
      end
  end.

(** A run of [add_mail] calls, one per mail of [ms], in order. *)
Definition add_mails (box : Mail.Mailbox) (ms : list Mail.mail) : Mail.Mailbox :=
  foldl Mail.add_mail box ms.

(** The number of entries of all the [owned_buildings] lists together. *)
Definition total_owned (h : Buildings.heap) : nat :=
  sum_list_with (fun per => length (Buildings.owned_buildings per)) (Buildings.persons h).

(** ** Facts about the number model *)

Lemma float_of_int_0 : float_of_int 0 = Ok 0%float.
Proof. reflexivity. Qed.

Lemma foldl_py_add_float (f : float) (xs : list float) :
  foldl (fun acc x => a ← acc; py_add a x) (Ok (PyFloat f)) (PyFloat <$> xs)
  = Ok (PyFloat (foldl PrimFloat.add f xs)).
Proof.
  revert f. induction xs as [|x xs IH]; intros f; simpl; [done|]. apply IH.
Qed.

(** [sum] of a list of floats: the [int] 0 when the list is empty, and
    otherwise [((0.0 + x1) + x2) + ...]. *)
Lemma py_sum_floats (xs : list float) :
  py_sum (PyFloat <$> xs) =
  Ok match xs with
     | [] => PyInt 0
     | x :: xs' => PyFloat (foldl PrimFloat.add (0 + x)%float xs')
     end.
Proof.
  destruct xs as [|x xs]; [done|]. unfold py_sum. simpl. apply foldl_py_add_float.
Qed.

Lemma py_sum_floats_snoc (xs : list float) (x : float) (v : pynum) :
  py_sum (PyFloat <$> xs) = Ok v ->
  py_sum (PyFloat <$> (xs ++ [x])) = py_add v (PyFloat x).
Proof.
  unfold py_sum. rewrite fmap_app, foldl_app. intros ->. done.
Qed.

Lemma res_mapM_app {A B} (k : A -> res B) (l1 l2 : list A) :
  res_mapM k (l1 ++ l2) =
  (ys1 ← res_mapM k l1; ys2 ← res_mapM k l2; Ok (ys1 ++ ys2)).
Proof.
  induction l1 as [|x l1 IH]; simpl.
  - destruct (res_mapM k l2); done.
  - destruct (k x) as [y|e]; simpl; [|done]. rewrite IH.
    destruct (res_mapM k l1) as [ys1|e]; simpl; [|done].
    destruct (res_mapM k l2); done.
Qed.

Lemma res_mapM_ext {A B} (k1 k2 : A -> res B) (l : list A) :
  (forall x, x ∈ l -> k1 x = k2 x) -> res_mapM k1 l = res_mapM k2 l.
Proof.
  induction l as [|x l IH]; intros H; simpl; [done|].
  rewrite (H x) by left. rewrite IH; [done|]. intros y Hy. apply H. by right.
Qed.

Lemma res_mapM_is_Ok {A B} (k : A -> res B) (l : list A) :
  (forall x, x ∈ l -> is_Ok (k x)) -> is_Ok (res_mapM k l).
Proof.
  induction l as [|x l IH]; intros H; simpl; [by eexists|].
  destruct (H x) as [y ->]; [left|]. simpl.
  destruct IH as [ys ->]; [intros z Hz; apply H; by right|]. by eexists.
Qed.

(** ** mail.py: franking, validity and display *)

Section MailFacts.
Import Mail.

Lemma string_app_assoc (s1 s2 s3 : string) :
  (s1 +:+ s2) +:+ s3 = s1 +:+ s2 +:+ s3.
Proof.
  induction s1 as [|c s1 IH]; [reflexivity|].
  change (String c ((s1 +:+ s2) +:+ s3) = String c (s1 +:+ s2 +:+ s3)).
  f_equal. exact IH.
Qed.

Lemma Mail_is_valid_spec (b : Mail) :
  Mail_is_valid b = true <-> delivery_address b <> "".
Proof.
  unfold Mail_is_valid. destruct (String.eqb_spec (delivery_address b) ""); simpl.
  - split; [discriminate|done].
  - split; [done|reflexivity].
Qed.

(** The franking of the test-suite's mails. *)
Example frank_test_values :
  frank (Letter (mkMail 180 NORMAL "dest") A5) = Ok 1.68%float /\
  frank (Letter (mkMail 240 EXPRESS "") A4) = Ok 5.48%float /\
  frank (Parcel (mkMail 1800 NORMAL "dest") 2) = Ok 2.30%float /\
  frank (Parcel (mkMail 15000 EXPRESS "dest") 200) = Ok 130.00%float /\
  frank (Advertisement (mkMail 200 NORMAL "dest")) = Ok 1.0%float /\
  frank (Advertisement (mkMail 240 EXPRESS "")) = Ok 2.4%float.
Proof. repeat split; vm_compute; reflexivity. Qed.

(** C2: [frank_normal] of a Letter is base(format) + weight_kg with
    base(A5) = 1.50, base(A4) = 2.50 and base(A3) = 3.50; of a Parcel it is
    0.25 * volume + weight_kg; of an Advertisement 5.0 * weight_kg; and
    weight_kg is weight_g / 1000.0.  The [int] fields enter the float
    arithmetic through [float_of_int], whose [OverflowError] is passed on. *)
Theorem frank_normal_formulas (b : Mail) :
  weight_kg b = (w ← float_of_int (weight_g b); Ok (w / 1000.0)%float) /\
  frank_normal (Letter b A5) = (kg ← weight_kg b; Ok (1.50 + kg)%float) /\
  frank_normal (Letter b A4) = (kg ← weight_kg b; Ok (2.50 + kg)%float) /\
  frank_normal (Letter b A3) = (kg ← weight_kg b; Ok (3.50 + kg)%float) /\
  (forall volume : Z,
     frank_normal (Parcel b volume) =
     (v ← float_of_int volume; kg ← weight_kg b; Ok (0.25 * v + kg)%float)) /\
  frank_normal (Advertisement b) = (kg ← weight_kg b; Ok (5.0 * kg)%float).
Proof. repeat split. Qed.

(** C3: for a mail of any of the three classes, [frank] is [frank_normal]
    unchanged when the delivery mode is NORMAL and twice [frank_normal] when
    it is EXPRESS. *)
Theorem frank_by_mode (m : mail) :
  (delivery_mode (base_of m) = NORMAL -> frank m = frank_normal m) /\
  (delivery_mode (base_of m) = EXPRESS ->
   frank m = PrimFloat.mul 2.0 <$> frank_normal m).
Proof.
  unfold frank. split; intros ->; destruct (frank_normal m); reflexivity.
Qed.

Lemma frank_by_mode_witness :
  frank (Parcel (mkMail 1800 NORMAL "dest") 2)
    = frank_normal (Parcel (mkMail 1800 NORMAL "dest") 2) /\
  frank (Parcel (mkMail 15000 EXPRESS "dest") 200)
    = PrimFloat.mul 2.0 <$> frank_normal (Parcel (mkMail 15000 EXPRESS "dest") 200).
Proof.
  split.
  - apply (proj1 (frank_by_mode (Parcel (mkMail 1800 NORMAL "dest") 2))). reflexivity.
  - apply (proj2 (frank_by_mode (Parcel (mkMail 15000 EXPRESS "dest") 200))). reflexivity.
Defined.

(** C4: a Letter or an Advertisement is valid exactly when its delivery
    address is non-empty; a Parcel exactly when its address is non-empty and
    its volume is at most MAX_PARCEL_VOLUME = 50, so a Parcel with an
    address and a volume above 50 is invalid; and a valid mail of any class
    passes the base rule. *)
Theorem is_valid_rules :
  MAX_PARCEL_VOLUME = 50 /\
  (forall b f, is_valid (Letter b f) = true <-> delivery_address b <> "") /\
  (forall b, is_valid (Advertisement b) = true <-> delivery_address b <> "") /\
  (forall b volume,
     is_valid (Parcel b volume) = true <->
     delivery_address b <> "" /\ volume <= MAX_PARCEL_VOLUME) /\
  (forall b volume,
     delivery_address b <> "" -> 50 < volume -> is_valid (Parcel b volume) = false) /\
  (forall m, is_valid m = true -> Mail_is_valid (base_of m) = true).
Proof.
  split; [reflexivity|]. split; [|split; [|split; [|split]]].
  - intros b f. apply Mail_is_valid_spec.
  - intros b. apply Mail_is_valid_spec.
  - intros b volume. simpl. rewrite andb_true_iff, Mail_is_valid_spec, Z.leb_le. done.
  - intros b volume _ Hv. simpl. apply andb_false_iff. right.
    apply Z.leb_gt. unfold MAX_PARCEL_VOLUME. lia.
  - intros [b f|b v|b]; simpl; [done| |done].
    intros H. by apply andb_true_iff in H as [H _].
Qed.

Lemma is_valid_rules_witness :
  is_valid (Parcel (mkMail 15000 EXPRESS "dest") 200) = false /\
  Mail_is_valid (base_of (Parcel (mkMail 1800 NORMAL "dest") 2)) = true.
Proof.
  destruct is_valid_rules as (_ & _ & _ & _ & Hbig & Hbase). split.
  - apply Hbig; simpl; [discriminate|lia].
  - apply Hbase. reflexivity.
Defined.

Lemma valid_franks_filter (l : list mail) :
  valid_franks l = res_mapM frank (filter (fun m => is_valid m = true) l).
Proof.
  induction l as [|m l IH]; [reflexivity|].
  simpl valid_franks. destruct (is_valid m) eqn:Hm.
  - rewrite filter_cons_True by done. simpl. by rewrite IH.
  - rewrite filter_cons_False by (rewrite Hm; discriminate). exact IH.
Qed.

Lemma invalid_list_filter (l : list mail) :
  invalid_list l = filter (fun m => is_valid m = false) l.
Proof.
  induction l as [|m l IH]; [reflexivity|].
  simpl invalid_list. destruct (is_valid m) eqn:Hm; simpl.
  - rewrite filter_cons_False by (rewrite Hm; discriminate). exact IH.
  - rewrite filter_cons_True by done. by rewrite IH.
Qed.

Lemma valid_filter_idemp (l : list mail) :
  filter (fun m => is_valid m = true) (filter (fun m => is_valid m = true) l)
  = filter (fun m => is_valid m = true) l.
Proof.
  induction l as [|m l IH]; [reflexivity|].
  destruct (is_valid m) eqn:Hm.
  - rewrite !filter_cons_True by done. by rewrite IH.
  - rewrite filter_cons_False by (rewrite Hm; discriminate). exact IH.
Qed.

Lemma valid_invalid_length (l : list mail) :
  (length (filter (fun m => is_valid m = false) l)
   + length (filter (fun m => is_valid m = true) l) = length l)%nat.
Proof.
  induction l as [|m l IH]; [reflexivity|].
  destruct (is_valid m) eqn:Hm.
  - rewrite filter_cons_False by (rewrite Hm; discriminate).
    rewrite filter_cons_True by done. simpl length. lia.
  - rewrite filter_cons_True by done.
    rewrite filter_cons_False by (rewrite Hm; discriminate). simpl length. lia.
Qed.

(** C5: [Mailbox.frank] is the sum of [frank] over exactly the mails that
    are valid, in insertion order; the invalid mails add nothing and their
    franking is never evaluated, so when the franking of every valid mail
    is defined the result is defined and the invalid mails can be dropped
    from the mailbox without changing it; [invalid_mails] is the number of
    mails that are not valid. *)
Theorem mailbox_frank_and_invalid_count (box : Mailbox) :
  let valid := filter (fun m => is_valid m = true) (mails box) in
  let invalid := filter (fun m => is_valid m = false) (mails box) in
  Mailbox_frank box = (xs ← res_mapM frank valid; py_sum (PyFloat <$> xs)) /\
  Mailbox_frank box = Mailbox_frank (mkMailbox valid) /\
  ((forall m, m ∈ mails box -> is_valid m = true -> is_Ok (frank m)) ->
   is_Ok (Mailbox_frank box)) /\
  invalid_mails box = Z.of_nat (length invalid) /\
  invalid_mails box + Z.of_nat (length valid) = Z.of_nat (length (mails box)).
Proof.
  intros valid invalid.
  assert (Hsum : Mailbox_frank box =
                 (xs ← res_mapM frank valid; py_sum (PyFloat <$> xs))).
  { unfold Mailbox_frank. by rewrite valid_franks_filter. }
  assert (Hcount : invalid_mails box = Z.of_nat (length invalid)).
  { unfold invalid_mails. by rewrite invalid_list_filter. }
  split; [exact Hsum|]. split; [|split; [|split]].
  - unfold Mailbox_frank. simpl mails. rewrite !valid_franks_filter.
    unfold valid. by rewrite valid_filter_idemp.
  - intros Hok. rewrite Hsum.
    destruct (res_mapM_is_Ok frank valid) as [xs ->].
    + intros m Hm. apply list_elem_of_filter in Hm as [Hv Hin]. by apply Hok.
    + simpl. rewrite py_sum_floats. by eexists.
  - exact Hcount.
  - rewrite Hcount. pose proof (valid_invalid_length (mails box)) as H.
    fold valid invalid in H. lia.
Qed.

Lemma mailbox_frank_and_invalid_count_witness :
  is_Ok (Mailbox_frank test_mailbox).
Proof.
  apply (mailbox_frank_and_invalid_count test_mailbox).
  intros m Hm _. vm_compute in Hm.
  repeat (apply elem_of_cons in Hm as [->|Hm]; [by eexists|]).
  by apply elem_of_nil in Hm.
Defined.

(** The mailbox of the test-suite: franking 1.68 + 2.30 + 1.0 over its
    three valid mails, four invalid mails, and the displayed lines. *)
Example test_mailbox_values :
  Mailbox_frank test_mailbox = Ok (PyFloat (1.68 + 2.30 + 1.0)%float) /\
  invalid_mails test_mailbox = 4 /\
  display test_mailbox =
    Ok
    [ "Lettre : 180 g, normal, pour 'dest', A5";
      "Lettre : 240 g, express, pour '', A4 (invalide)";
      "Colis : 1800 g, normal, pour 'dest', 2 l";
      "Colis : 1800 g, normal, pour '', 2 l (invalide)";
      "Colis : 15000 g, express, pour 'dest', 200 l (invalide)";
      "Publicité : 200 g, normal, pour 'dest'";
      "Publicité : 240 g, express, pour '' (invalide)" ].
Proof. repeat split; vm_compute; reflexivity. Qed.

Lemma str_of_int_Ok (z : Z) :
  is_Ok (str_of_int z) <-> Z.abs z < 10 ^ 4300.
Proof.
  unfold str_of_int, INT_MAX_STR_DIGITS.
  destruct (Z.ltb_spec (Z.abs z) (10 ^ 4300)) as [Hlt|Hge].
  - split; [done|]. intros _. by eexists.
  - split; [intros [w [=]]|]. intros Hlt. exfalso. by apply Z.lt_nge in Hlt.
Qed.

Lemma str_of_int_Raise (z : Z) (e : exn) :
  str_of_int z = Raise e -> e = ValueError /\ 10 ^ 4300 <= Z.abs z.
Proof.
  unfold str_of_int, INT_MAX_STR_DIGITS.
  destruct (Z.ltb_spec (Z.abs z) (10 ^ 4300)) as [Hlt|Hge]; [discriminate|].
  by intros [= <-].
Qed.

(** The digits [str] gives for an [int] read back as that [int]. *)
Lemma str_of_int_reads_back (z : Z) (w : string) :
  str_of_int z = Ok w ->
  exists d, NilZero.int_of_string w = Some d /\ Z.of_int d = z.
Proof.
  unfold str_of_int. destruct (_ <? _); [|discriminate]. intros [= <-].
  exists (Z.to_int z). split; [|apply DecimalZ.of_to].
  apply NilZero.isi; destruct z as [|p|p]; simpl; try discriminate;
    intros [= H]; by apply DecimalPos.Unsigned.to_uint_nonnil in H.
Qed.

(** C8: [str] of a Letter is
    "Lettre : {weight_g} g, {mode}, pour '{address}', {FORMAT}{suffix}",
    with the weight in decimal digits that read back as [weight_g], the
    mode written "normal" or "express", the format "A3", "A4" or "A5", and
    the suffix " (invalide)" for an invalid letter, one without address,
    and empty otherwise.  The conversion of the weight is the only step
    that can raise: [str] is defined exactly for a weight of at most 4300
    digits and raises [ValueError] for a longer one. *)
Theorem letter_str_format (b : Mail) (f : Format) :
  let mode := match delivery_mode b with
              | NORMAL => "normal"
              | EXPRESS => "express"
              end in
  let FORMAT := match f with A3 => "A3" | A4 => "A4" | A5 => "A5" end in
  let suffix := if is_valid (Letter b f) then "" else " (invalide)" in
  str (Letter b f) =
    (w ← str_of_int (weight_g b);
     Ok ("Lettre : " +:+ w +:+ " g, " +:+ mode +:+ ", pour '"
           +:+ delivery_address b +:+ "', " +:+ FORMAT +:+ suffix)) /\
  (forall w, str_of_int (weight_g b) = Ok w ->
     exists d, NilZero.int_of_string w = Some d /\ Z.of_int d = weight_g b) /\
  (suffix = " (invalide)" <-> delivery_address b = "") /\
  (is_Ok (str (Letter b f)) <-> Z.abs (weight_g b) < 10 ^ 4300) /\
  (forall e, str (Letter b f) = Raise e ->
             e = ValueError /\ 10 ^ 4300 <= Z.abs (weight_g b)).
Proof.
  intros mode FORMAT suffix.
  assert (Hstr : str (Letter b f) =
            (w ← str_of_int (weight_g b);
             Ok ("Lettre : " +:+ w +:+ " g, " +:+ mode +:+ ", pour '"
                   +:+ delivery_address b +:+ "', " +:+ FORMAT +:+ suffix))).
  { unfold str, general_info_str, invalid_str_suffix. fold suffix.
    destruct (str_of_int (weight_g b)) as [w|e]; [|reflexivity].
    change (Ok ("Lettre : " +:+
                  (w +:+ " g, " +:+ DeliveryMode_str (delivery_mode b) +:+ ", pour '"
                     +:+ delivery_address b +:+ "'")
                  +:+ ", " +:+ Format_str f +:+ suffix)
            = Ok ("Lettre : " +:+ w +:+ " g, " +:+ mode +:+ ", pour '"
                    +:+ delivery_address b +:+ "', " +:+ FORMAT +:+ suffix)).
    rewrite !string_app_assoc.
    replace (Format_str f) with FORMAT by (by destruct f).
    replace (DeliveryMode_str (delivery_mode b)) with mode
      by (by destruct (delivery_mode b)).
    reflexivity. }
  split; [exact Hstr|]. split; [apply str_of_int_reads_back|]. split; [|split].
  - unfold suffix. simpl. unfold Mail_is_valid.
    destruct (String.eqb_spec (delivery_address b) "") as [Heq|Hne]; simpl.
    + done.
    + split; [discriminate|done].
  - rewrite Hstr, <- str_of_int_Ok.
    destruct (str_of_int (weight_g b)) as [w|e]; simpl.
    + split; intros _; by eexists.
    + split; intros [? [=]].
  - intros e. rewrite Hstr.
    destruct (str_of_int (weight_g b)) as [w|e'] eqn:Hw; simpl; [discriminate|].
    intros [= <-]. by apply str_of_int_Raise.
Qed.

Lemma letter_str_format_witness :
  is_Ok (str (Letter (mkMail 180 NORMAL "dest") A5)).
Proof.
  apply (letter_str_format (mkMail 180 NORMAL "dest") A5). vm_compute. reflexivity.
Defined.

(** C10: [frank] never looks at validity.  Its outcome does not depend on
    the delivery address, it is the mode's scaling of [frank_normal] for
    valid and invalid mails alike, a Parcel above MAX_PARCEL_VOLUME is
    franked by the same formula as any other, and [frank] is defined
    exactly when the [int] fields convert to [float], whatever
    [is_valid] says. *)
Theorem frank_ignores_validity (m : mail) :
  (forall a, frank (with_address m a) = frank m) /\
  frank m =
    (base ← frank_normal m;
     Ok match delivery_mode (base_of m) with
        | NORMAL => base
        | EXPRESS => (2.0 * base)%float
        end) /\
  (forall b volume,
     frank (Parcel b volume) =
     (v ← float_of_int volume; kg ← weight_kg b;
      Ok match delivery_mode b with
         | NORMAL => (0.25 * v + kg)%float
         | EXPRESS => (2.0 * (0.25 * v + kg))%float
         end)) /\
  (is_Ok (frank m) <->
   is_Ok (float_of_int (weight_g (base_of m))) /\
   match m with
   | Parcel _ volume => is_Ok (float_of_int volume)
   | _ => True
   end).
Proof.
  split; [|split; [|split]].
  - intros a. by destruct m as [[w md a0] f|[w md a0] v|[w md a0]].
  - unfold frank. destruct (frank_normal m) as [x|e]; simpl; [|done].
    by destruct (delivery_mode (base_of m)).
  - intros b volume. unfold frank. simpl.
    destruct (float_of_int volume) as [v|e]; simpl; [|done].
    destruct (weight_kg b) as [kg|e]; simpl; [|done].
    by destruct (delivery_mode b).
  - unfold frank, is_Ok.
    destruct m as [b f|b v|b]; simpl; unfold weight_kg;
      try destruct (float_of_int v) as [v'|e']; simpl;
      destruct (float_of_int (weight_g b)) as [w|e]; simpl;
      try destruct (delivery_mode b);
      split; try (intros [? [=]]); try (intros [[? [=]] ?]);
      try (intros [? [? [=]]]); try (intros _); eauto.
Qed.

(** The invalid mails of the test-suite are franked all the same. *)
Example frank_of_invalid_mails :
  is_valid (Letter (mkMail 240 EXPRESS "") A4) = false /\
  frank (Letter (mkMail 240 EXPRESS "") A4) = Ok 5.48%float /\
  frank (Letter (mkMail 240 EXPRESS "dest") A4) = Ok 5.48%float /\
  is_valid (Parcel (mkMail 15000 EXPRESS "dest") 200) = false /\
  frank (Parcel (mkMail 15000 EXPRESS "dest") 200) = Ok 130.00%float.
Proof. repeat split; vm_compute; reflexivity. Qed.

End MailFacts.

(** ** buildings.py: ownership and taxes *)

Section BuildingFacts.
Import Buildings.

(** *** [list.remove] *)

Lemma list_remove_Ok (x : building_id) (l l' : list building_id) :
  list_remove x l = Ok l' ->
  exists l1 l2, l = l1 ++ x :: l2 /\ l' = l1 ++ l2 /\ x ∉ l1.
Proof.
  revert l'. induction l as [|y l IH]; intros l'; simpl; [discriminate|].
  destruct (decide (y = x)) as [->|Hne].
  - intros [= <-]. exists [], l. split; [done|]. split; [done|]. apply not_elem_of_nil.
  - destruct (list_remove x l) as [l0|e]; simpl; [|discriminate].
    intros [= <-]. destruct (IH l0 eq_refl) as (l1 & l2 & -> & -> & Hnot).
    exists (y :: l1), l2. split; [done|]. split; [done|].
    intros [?|?]%elem_of_cons; [by subst|done].
Qed.

Lemma list_remove_elem (x : building_id) (l : list building_id) :
  x ∈ l -> is_Ok (list_remove x l).
Proof.
  induction l as [|y l IH]; [by intros ?%elem_of_nil|].
  intros Hin. simpl. destruct (decide (y = x)) as [->|Hne]; [by eexists|].
  apply elem_of_cons in Hin as [->|Hin]; [done|].
  destruct (IH Hin) as [l' ->]. by eexists.
Qed.

Lemma without_notin (x : building_id) (l : list building_id) :
  x ∉ l -> without x l = l.
Proof.
  induction l as [|y l IH]; [done|]. intros Hnot. unfold without in *.
  apply not_elem_of_cons in Hnot as [Hne Hnot].
  rewrite filter_cons_True by done. by rewrite IH.
Qed.

Lemma without_app (x : building_id) (l1 l2 : list building_id) :
  without x (l1 ++ l2) = without x l1 ++ without x l2.
Proof. unfold without. apply filter_app. Qed.

Lemma without_cons_eq (x : building_id) (l : list building_id) :
  without x (x :: l) = without x l.
Proof. unfold without. by rewrite filter_cons_False by (intros H; by apply H). Qed.

Lemma elem_of_without (x y : building_id) (l : list building_id) :
  y ∈ without x l <-> y <> x /\ y ∈ l.
Proof. unfold without. by rewrite list_elem_of_filter. Qed.

(** On a list without repetition, [remove] leaves the list without [x]. *)
Lemma list_remove_NoDup (x : building_id) (l : list building_id) :
  NoDup l -> x ∈ l -> list_remove x l = Ok (without x l).
Proof.
  intros Hnd Hin. destruct (list_remove_elem x l Hin) as [l' Hl']. rewrite Hl'.
  destruct (list_remove_Ok x l l' Hl') as (l1 & l2 & -> & -> & Hnot1).
  apply NoDup_app in Hnd as (_ & Hdisj & Hnd2).
  apply NoDup_cons in Hnd2 as [Hnot2 _].
  rewrite without_app, without_cons_eq, !without_notin by done. done.
Qed.

Lemma occurrences_notin (x : building_id) (l : list building_id) :
  x ∉ l -> occurrences x l = 0%nat.
Proof.
  induction l as [|y l IH]; [done|]. intros [Hne Hnot]%not_elem_of_cons.
  unfold occurrences in *. rewrite filter_cons_False by done. by apply IH.
Qed.

Lemma occurrences_NoDup (x : building_id) (l : list building_id) :
  NoDup l -> x ∈ l -> occurrences x l = 1%nat.
Proof.
  induction l as [|y l IH]; [by intros _ ?%elem_of_nil|].
  intros [Hnot Hnd]%NoDup_cons Hin. unfold occurrences in *.
  destruct (decide (y = x)) as [->|Hne].
  - rewrite filter_cons_True by done. simpl. f_equal. by apply occurrences_notin.
  - rewrite filter_cons_False by done. apply IH; [done|].
    apply elem_of_cons in Hin as [->|Hin]; done.
Qed.

Lemma NoDup_without_snoc (x : building_id) (l : list building_id) :
  NoDup l -> NoDup (without x l ++ [x]).
Proof.
  intros Hnd. apply NoDup_app. split; [by apply NoDup_filter|].
  split; [|apply NoDup_singleton].
  intros y [Hne _]%elem_of_without ->%list_elem_of_singleton. done.
Qed.

(** *** The heap after each operation *)

Lemma Person_eta (per : Person) :
  mkPerson (full_name per) (owned_buildings per) = per.
Proof. by destruct per. Qed.

Lemma wf_notin_other (h : heap) (b : building_id) (bd : Building) (r : person_id)
    (per : Person) :
  wf h -> buildings h !! b = Some bd -> persons h !! r = Some per ->
  r <> owner bd -> b ∉ owned_buildings per.
Proof.
  intros Hwf Hb Hr Hne Hin.
  destruct (wf_owned h Hwf r per b Hr Hin) as (bd' & Hb' & Hown). congruence.
Qed.

Lemma wf_lt_length (h : heap) (p : person_id) (per : Person) :
  wf h -> persons h !! p = Some per -> length (buildings h) ∉ owned_buildings per.
Proof.
  intros Hwf Hp Hin.
  destruct (wf_owned h Hwf p per _ Hp Hin) as (bd & Hb & _).
  apply lookup_lt_Some in Hb. lia.
Qed.

Lemma get_person_Some (h : heap) (p : person_id) (per : Person) :
  persons h !! p = Some per -> get_person h p = Ok per.
Proof. unfold get_person. by intros ->. Qed.

Lemma get_building_Some (h : heap) (b : building_id) (bd : Building) :
  buildings h !! b = Some bd -> get_building h b = Ok bd.
Proof. unfold get_building. by intros ->. Qed.

Lemma set_owned_Some (h : heap) (p : person_id) (per : Person) (l : list building_id) :
  persons h !! p = Some per ->
  set_owned h p l = Ok (mkHeap (<[p := mkPerson (full_name per) l]> (persons h)) (buildings h)).
Proof. unfold set_owned. intros Hp. by rewrite (get_person_Some _ _ _ Hp). Qed.

Lemma Building_init_lookup (h : heap) (p : person_id) (k : BuildingKind) :
  is_Some (persons h !! p) ->
  exists h', Building_init p k h = Ok (length (buildings h), h') /\
    (forall r, persons h' !! r = acquired (length (buildings h)) p r <$> persons h !! r) /\
    buildings h' = buildings h ++ [mkBuilding p k].
Proof.
  intros [per Hp]. unfold Building_init, get_person, set_owned, get_person. simpl.
  rewrite Hp. simpl. eexists. split; [reflexivity|]. simpl. split; [|done].
  intros r. rewrite list_lookup_insert. apply lookup_lt_Some in Hp as Hlt.
  destruct (decide (p = r)) as [<-|Hne].
  - rewrite decide_True by done. rewrite Hp. unfold acquired. simpl.
    by rewrite decide_True.
  - rewrite decide_False by tauto. destruct (persons h !! r) as [per'|]; [|done].
    simpl. unfold acquired. rewrite decide_False by done.
    by rewrite app_nil_r, Person_eta.
Qed.

Lemma owner_set_lookup (h : heap) (b : building_id) (bd : Building) (q : person_id) :
  wf h -> buildings h !! b = Some bd -> is_Some (persons h !! q) ->
  exists h', owner_set b q h = Ok h' /\
    (forall r, persons h' !! r = moved b q r <$> persons h !! r) /\
    (forall c, buildings h' !! c =
               if decide (c = b) then Some (mkBuilding q (kind bd)) else buildings h !! c).
Proof.
  intros Hwf Hb [perq Hq].
  destruct (wf_owner h Hwf b bd Hb) as (perp & Hp & Hin).
  pose proof (wf_nodup h Hwf _ _ Hp) as Hnd.
  apply lookup_lt_Some in Hp as Hplt. apply lookup_lt_Some in Hq as Hqlt.
  apply lookup_lt_Some in Hb as Hblt.
  unfold owner_set. rewrite (get_building_Some _ _ _ Hb). simpl.
  rewrite (get_person_Some _ _ _ Hp). simpl.
  rewrite (list_remove_NoDup b _ Hnd Hin). simpl.
  rewrite (set_owned_Some _ _ _ _ Hp). simpl.
  unfold get_person, set_owned, get_person. simpl.
  rewrite list_lookup_insert.
  assert (Hothers : forall r per, persons h !! r = Some per -> r <> owner bd ->
                     without b (owned_buildings per) = owned_buildings per).
  { intros r per Hr Hne. apply without_notin. eapply wf_notin_other; eauto. }
  destruct (decide (owner bd = q)) as [Heq|Hne].
  - rewrite decide_True by done. simpl. eexists. split; [reflexivity|]. simpl.
    split.
    + intros r. rewrite !list_lookup_insert, !length_insert.
      destruct (decide (q = r)) as [<-|Hqr].
      * rewrite decide_True by done. rewrite Hq. simpl. unfold moved.
        rewrite decide_True by done. rewrite Heq in Hp. by simplify_eq.
      * rewrite decide_False by tauto. rewrite decide_False by (subst; tauto).
        destruct (persons h !! r) as [per|] eqn:Hr; [|done]. simpl. unfold moved.
        rewrite decide_False by done.
        rewrite (Hothers r per Hr) by congruence. by rewrite app_nil_r, Person_eta.
    + intros c. rewrite list_lookup_insert.
      destruct (decide (c = b)) as [->|Hcb].
      * by rewrite decide_True.
      * by rewrite decide_False by (intros [? _]; done).
  - rewrite decide_False by tauto. rewrite Hq. simpl.
    eexists. split; [reflexivity|]. simpl. split.
    + intros r. rewrite !list_lookup_insert, !length_insert.
      destruct (decide (q = r)) as [<-|Hqr].
      * rewrite decide_True by done. rewrite Hq. simpl. unfold moved.
        rewrite decide_True by done.
        by rewrite (Hothers q perq Hq) by congruence.
      * rewrite decide_False by tauto.
        destruct (decide (owner bd = r)) as [<-|Hpr].
        -- rewrite decide_True by done. rewrite Hp. simpl. unfold moved.
           rewrite decide_False by done. by rewrite app_nil_r.
        -- rewrite decide_False by tauto.
           destruct (persons h !! r) as [per|] eqn:Hr; [|done]. simpl. unfold moved.
           rewrite decide_False by done.
           rewrite (Hothers r per Hr) by congruence. by rewrite app_nil_r, Person_eta.
    + intros c. rewrite list_lookup_insert.
      destruct (decide (c = b)) as [->|Hcb].
      * by rewrite decide_True.
      * by rewrite decide_False by (intros [? _]; done).
Qed.

(** *** The ownership invariant holds in every reachable heap *)

Lemma wf_empty : wf empty_heap.
Proof. split; simpl; intros *; by rewrite lookup_nil. Qed.

Lemma wf_Person_init (h : heap) (name : string) :
  wf h -> wf (Person_init name h).2.
Proof.
  intros [Ho Hl Hn]. split; simpl.
  - intros b bd Hb. destruct (Ho b bd Hb) as (per & Hp & Hin).
    exists per. split; [|done]. by apply lookup_app_l_Some.
  - intros p per b [[_ Hp]|[_ <-]]%lookup_snoc_Some Hin; [eauto|].
    by apply elem_of_nil in Hin.
  - intros p per [[_ Hp]|[_ <-]]%lookup_snoc_Some; [eauto|]. apply NoDup_nil_2.
Qed.

Lemma wf_acquired (h h' : heap) (p : person_id) (k : BuildingKind) :
  wf h -> is_Some (persons h !! p) ->
  (forall r, persons h' !! r = acquired (length (buildings h)) p r <$> persons h !! r) ->
  buildings h' = buildings h ++ [mkBuilding p k] ->
  wf h'.
Proof.
  intros Hwf [perp Hp] Hpers Hbld. split.
  - intros b bd. rewrite Hbld. intros [[_ Hb]|[-> <-]]%lookup_snoc_Some.
    + destruct (wf_owner h Hwf b bd Hb) as (per & Hper & Hin).
      exists (acquired (length (buildings h)) p (owner bd) per).
      rewrite Hpers, Hper. split; [done|]. simpl. apply elem_of_app. by left.
    + simpl. exists (acquired (length (buildings h)) p p perp).
      rewrite Hpers, Hp. split; [done|]. simpl. rewrite decide_True by done.
      apply elem_of_app. right. by apply list_elem_of_singleton.
  - intros r per' b. rewrite Hpers.
    destruct (persons h !! r) as [per|] eqn:Hr; [|done]. intros [= <-]. simpl.
    rewrite Hbld. intros [Hin|Hin]%elem_of_app.
    + destruct (wf_owned h Hwf r per b Hr Hin) as (bd & Hb & Hown).
      exists bd. split; [|done]. by apply lookup_app_l_Some.
    + destruct (decide (r = p)) as [->|Hne]; [|by apply elem_of_nil in Hin].
      apply list_elem_of_singleton in Hin as ->.
      exists (mkBuilding p k). split; [|done]. apply list_lookup_middle. done.
  - intros r per'. rewrite Hpers.
    destruct (persons h !! r) as [per|] eqn:Hr; [|done]. intros [= <-]. simpl.
    pose proof (wf_nodup h Hwf r per Hr) as Hnd.
    destruct (decide (r = p)) as [->|Hne]; [|by rewrite app_nil_r].
    apply NoDup_app. split; [done|]. split; [|apply NoDup_singleton].
    intros x Hx ->%list_elem_of_singleton. by eapply wf_lt_length.
Qed.

Lemma wf_moved (h h' : heap) (b : building_id) (bd : Building) (q : person_id) :
  wf h -> buildings h !! b = Some bd -> is_Some (persons h !! q) ->
  (forall r, persons h' !! r = moved b q r <$> persons h !! r) ->
  (forall c, buildings h' !! c =
             if decide (c = b) then Some (mkBuilding q (kind bd)) else buildings h !! c) ->
  wf h'.
Proof.
  intros Hwf Hb [perq Hq] Hpers Hbld. split.
  - intros c bd'. rewrite Hbld. destruct (decide (c = b)) as [->|Hne].
    + intros [= <-]. simpl. exists (moved b q q perq). rewrite Hpers, Hq.
      split; [done|]. simpl. rewrite decide_True by done.
      apply elem_of_app. right. by apply list_elem_of_singleton.
    + intros Hc. destruct (wf_owner h Hwf c bd' Hc) as (per & Hper & Hin).
      exists (moved b q (owner bd') per). rewrite Hpers, Hper. split; [done|].
      simpl. apply elem_of_app. left. by apply elem_of_without.
  - intros r per' c. rewrite Hpers.
    destruct (persons h !! r) as [per|] eqn:Hr; [|done]. intros [= <-]. simpl.
    rewrite Hbld. intros [[Hne Hin]%elem_of_without|Hin]%elem_of_app.
    + rewrite decide_False by done. by eapply wf_owned.
    + destruct (decide (r = q)) as [->|Hrq]; [|by apply elem_of_nil in Hin].
      apply list_elem_of_singleton in Hin as ->. rewrite decide_True by done. eauto.
  - intros r per'. rewrite Hpers.
    destruct (persons h !! r) as [per|] eqn:Hr; [|done]. intros [= <-]. simpl.
    pose proof (wf_nodup h Hwf r per Hr) as Hnd.
    destruct (decide (r = q)) as [->|Hne].
    + by apply NoDup_without_snoc.
    + rewrite app_nil_r. by apply NoDup_filter.
Qed.

Lemma Building_init_inv (h h' : heap) (p : person_id) (k : BuildingKind)
    (b : building_id) :
  Building_init p k h = Ok (b, h') -> is_Some (persons h !! p).
Proof.
  unfold Building_init, get_person. destruct (persons h !! p); [eauto|discriminate].
Qed.

Lemma owner_set_inv (h h' : heap) (b : building_id) (q : person_id) :
  owner_set b q h = Ok h' ->
  exists bd, buildings h !! b = Some bd /\ is_Some (persons h !! q).
Proof.
  unfold owner_set, get_building.
  destruct (buildings h !! b) as [bd|]; [|discriminate]. simpl.
  intros H. exists bd. split; [done|]. revert H.
  destruct (get_person h (owner bd)) as [old|]; [|discriminate]. simpl.
  destruct (list_remove b (owned_buildings old)) as [l|]; [|discriminate]. simpl.
  unfold set_owned at 2. destruct (get_person h (owner bd)) as [old'|]; [|discriminate].
  simpl. unfold get_person at 1. simpl.
  destruct (_ !! q) as [new|] eqn:Hnew; [|discriminate]. intros _.
  apply lookup_lt_Some in Hnew. rewrite length_insert in Hnew.
  by apply lookup_lt_is_Some_2.
Qed.

Lemma wf_Building_init (h h' : heap) (p : person_id) (k : BuildingKind)
    (b : building_id) :
  wf h -> Building_init p k h = Ok (b, h') -> wf h'.
Proof.
  intros Hwf Hinit. pose proof (Building_init_inv _ _ _ _ _ Hinit) as Hp.
  destruct (Building_init_lookup h p k Hp) as (h'' & Heq & Hpers & Hbld).
  rewrite Heq in Hinit. injection Hinit as _ <-. by eapply wf_acquired.
Qed.

Lemma wf_owner_set (h h' : heap) (b : building_id) (q : person_id) :
  wf h -> owner_set b q h = Ok h' -> wf h'.
Proof.
  intros Hwf Hset. destruct (owner_set_inv _ _ _ _ Hset) as (bd & Hb & Hq).
  destruct (owner_set_lookup h b bd q Hwf Hb Hq) as (h'' & Heq & Hpers & Hbld).
  rewrite Heq in Hset. injection Hset as <-. by eapply wf_moved.
Qed.

Lemma reachable_wf (h : heap) : reachable h -> wf h.
Proof.
  induction 1 as [|h name _ IH|h p k b h' _ IH Hinit|h b q h' _ IH Hset].
  - apply wf_empty.
  - by apply wf_Person_init.
  - by eapply wf_Building_init.
  - by eapply wf_owner_set.
Qed.

Lemma test_script_heap : test_script = Ok test_heap.
Proof. reflexivity. Qed.

Lemma reachable_test_heap : reachable test_heap.
Proof.
  assert (H1 : reachable (Person_init "Alice" empty_heap).2) by apply reach_Person, reach_empty.
  eassert (H2 : reachable _).
  { eapply (reach_Building _ 0%nat (House 50 10)); [exact H1|reflexivity]. }
  eassert (H3 : reachable _).
  { eapply (reach_Building _ 0%nat
              (AppartmentBuilding [mkAppartment 30; mkAppartment 60]));
      [exact H2|reflexivity]. }
  exact (reach_Person _ "Bob" H3).
Qed.

Lemma reachable_three_houses : reachable three_houses.
Proof.
  assert (H1 : reachable (Person_init "Alice" empty_heap).2) by apply reach_Person, reach_empty.
  eassert (H2 : reachable _).
  { eapply (reach_Building _ 0%nat (House 90 0)); [exact H1|reflexivity]. }
  eassert (H3 : reachable _).
  { eapply (reach_Building _ 0%nat (House 170 0)); [exact H2|reflexivity]. }
  eassert (H4 : reachable _).
  { eapply (reach_Building _ 0%nat (House 20 0)); [exact H3|reflexivity]. }
  exact (reach_Person _ "Bob" H4).
Qed.

(** *** Ownership *)

Lemma wf_occurrences (h : heap) (b : building_id) (bd : Building) (p : person_id)
    (per : Person) :
  wf h -> buildings h !! b = Some bd -> persons h !! p = Some per ->
  occurrences b (owned_buildings per) = if decide (p = owner bd) then 1%nat else 0%nat.
Proof.
  intros Hwf Hb Hp. destruct (decide (p = owner bd)) as [->|Hne].
  - destruct (wf_owner h Hwf b bd Hb) as (per' & Hp' & Hin).
    assert (per' = per) as -> by congruence.
    apply occurrences_NoDup; [by eapply wf_nodup|done].
  - apply occurrences_notin. by eapply wf_notin_other.
Qed.

(** C1: in every heap the program reaches, a building is in the
    [owned_buildings] of exactly one person, its owner, and there once.
    Constructing a building appends it to the list of the initial owner;
    the transfer [b.owner = q] of a building of [p] removes it from the
    list of [p], makes [q] its owner and appends it to the list of [q];
    the heap after either operation is reachable again, so the building
    is then neither in no list nor in two. *)
Theorem exactly_one_owner (h : heap) :
  reachable h ->
  (forall b bd, buildings h !! b = Some bd ->
     is_Some (persons h !! owner bd) /\
     forall p per, persons h !! p = Some per ->
       occurrences b (owned_buildings per) = if decide (p = owner bd) then 1%nat else 0%nat) /\
  (forall p per k, persons h !! p = Some per ->
     exists h', Building_init p k h = Ok (length (buildings h), h') /\
       persons h' !! p =
         Some (mkPerson (full_name per) (owned_buildings per ++ [length (buildings h)])) /\
       buildings h' !! length (buildings h) = Some (mkBuilding p k) /\
       reachable h') /\
  (forall b bd q perp perq,
     buildings h !! b = Some bd -> persons h !! owner bd = Some perp ->
     persons h !! q = Some perq ->
     exists h' perq', owner_set b q h = Ok h' /\
       buildings h' !! b = Some (mkBuilding q (kind bd)) /\
       persons h' !! q = Some perq' /\
       last (owned_buildings perq') = Some b /\
       (q <> owner bd ->
        persons h' !! owner bd =
          Some (mkPerson (full_name perp) (without b (owned_buildings perp))) /\
        (b ∉ without b (owned_buildings perp)) /\
        perq' = mkPerson (full_name perq) (owned_buildings perq ++ [b])) /\
       reachable h').
Proof.
  intros Hreach. pose proof (reachable_wf h Hreach) as Hwf.
  split; [|split].
  - intros b bd Hb. split.
    + destruct (wf_owner h Hwf b bd Hb) as (per & Hp & _). eauto.
    + intros p per Hp. by eapply wf_occurrences.
  - intros p per k Hp.
    destruct (Building_init_lookup h p k) as (h' & Heq & Hpers & Hbld); [eauto|].
    exists h'. split; [done|]. split; [|split].
    + rewrite Hpers, Hp. simpl. unfold acquired. by rewrite decide_True.
    + rewrite Hbld. by apply list_lookup_middle.
    + by eapply reach_Building.
  - intros b bd q perp perq Hb Hp Hq.
    destruct (owner_set_lookup h b bd q Hwf Hb) as (h' & Heq & Hpers & Hbld); [eauto|].
    exists h', (moved b q q perq). split; [done|]. split; [|split; [|split; [|split]]].
    + rewrite Hbld. by rewrite decide_True.
    + by rewrite Hpers, Hq.
    + simpl. rewrite decide_True by done. apply last_snoc.
    + intros Hne. split; [|split].
      * rewrite Hpers, Hp. simpl. unfold moved.
        rewrite decide_False by done. by rewrite app_nil_r.
      * intros [? _]%elem_of_without. done.
      * unfold moved. rewrite decide_True by done.
        rewrite without_notin; [done|]. by eapply wf_notin_other.
    + by eapply reach_owner_set.
Qed.

Lemma exactly_one_owner_witness :
  exists h' perq', owner_set 1%nat 1%nat test_heap = Ok h' /\
    buildings h' !! 1%nat =
      Some (mkBuilding 1%nat (AppartmentBuilding [mkAppartment 30; mkAppartment 60])) /\
    persons h' !! 1%nat = Some perq' /\
    last (owned_buildings perq') = Some 1%nat /\
    (1%nat <> 0%nat ->
     persons h' !! 0%nat = Some (mkPerson "Alice" (without 1%nat [0%nat; 1%nat])) /\
     (1%nat ∉ without 1%nat [0%nat; 1%nat]) /\
     perq' = mkPerson "Bob" ([] ++ [1%nat])) /\
    reachable h'.
Proof.
  destruct (exactly_one_owner test_heap reachable_test_heap) as (_ & _ & Hset).
  exact (Hset 1%nat
           (mkBuilding 0%nat (AppartmentBuilding [mkAppartment 30; mkAppartment 60]))
           1%nat (mkPerson "Alice" [0%nat; 1%nat]) (mkPerson "Bob" [])
           eq_refl eq_refl eq_refl).
Defined.

Lemma length_without (b : building_id) (l : list building_id) :
  (length (without b l) + occurrences b l = length l)%nat.
Proof.
  induction l as [|y l IH]; [done|]. unfold without, occurrences in *.
  destruct (decide (y = b)) as [->|Hne].
  - rewrite filter_cons_False by (intros H; by apply H).
    rewrite filter_cons_True by done. simpl. lia.
  - rewrite filter_cons_True by done. rewrite filter_cons_False by done. simpl. lia.
Qed.

(** C9: assigning to [b.owner] the person [p] that already owns [b] keeps
    [b] in the list of [p] exactly once and keeps [p] its owner; the list
    keeps its length and the order of the other buildings, and [b] is
    afterwards at the last position and nowhere else, so it has moved
    unless it was last already. *)
Theorem self_transfer_moves_last (h : heap) (b : building_id) (bd : Building)
    (perp : Person) :
  reachable h -> buildings h !! b = Some bd -> persons h !! owner bd = Some perp ->
  let old := owned_buildings perp in
  let new := without b old ++ [b] in
  exists h', owner_set b (owner bd) h = Ok h' /\
    persons h' !! owner bd = Some (mkPerson (full_name perp) new) /\
    buildings h' !! b = Some bd /\
    occurrences b old = 1%nat /\ occurrences b new = 1%nat /\
    length new = length old /\
    without b new = without b old /\
    (forall i, new !! i = Some b <-> i = (length old - 1)%nat) /\
    (forall i, old !! i = Some b -> i <> (length old - 1)%nat ->
               new !! i <> Some b /\ new <> old) /\
    (forall r, r <> owner bd -> persons h' !! r = persons h !! r) /\
    reachable h'.
Proof.
  intros Hreach Hb Hp old new. pose proof (reachable_wf h Hreach) as Hwf.
  destruct (owner_set_lookup h b bd (owner bd) Hwf Hb) as (h' & Heq & Hpers & Hbld); [eauto|].
  destruct (wf_owner h Hwf b bd Hb) as (per' & Hp' & Hin).
  assert (per' = perp) as -> by congruence. fold old in Hin.
  assert (Hnd : NoDup old) by (by eapply wf_nodup).
  assert (Hocc : occurrences b old = 1%nat) by (by apply occurrences_NoDup).
  assert (Hnotin : b ∉ without b old) by (intros [? _]%elem_of_without; done).
  assert (Hlen : length new = length old).
  { unfold new. rewrite length_app. simpl.
    pose proof (length_without b old). lia. }
  assert (Hpos : forall i, new !! i = Some b <-> i = (length old - 1)%nat).
  { intros i. unfold new. rewrite lookup_snoc_Some. rewrite <- Hlen. unfold new.
    rewrite length_app. simpl. split.
    - intros [[_ Hi]|[-> _]]; [|lia].
      apply list_elem_of_lookup_2 in Hi. done.
    - intros ->. right. split; [lia|done]. }
  exists h'. split; [done|]. split; [|split; [|split; [|split; [|split; [|split;
    [|split; [|split; [|split]]]]]]]].
  - rewrite Hpers, Hp. simpl. unfold moved. by rewrite decide_True.
  - rewrite Hbld. rewrite decide_True by done. by destruct bd.
  - done.
  - apply occurrences_NoDup; [by apply NoDup_without_snoc|].
    apply elem_of_app. right. by apply list_elem_of_singleton.
  - done.
  - unfold new. rewrite without_app, without_cons_eq. simpl.
    rewrite app_nil_r. by apply without_notin.
  - done.
  - intros i Hi Hne. split.
    + rewrite Hpos. done.
    + intros Hnew. apply Hne. apply Hpos. by rewrite Hnew.
  - intros r Hne. rewrite Hpers.
    destruct (persons h !! r) as [per|] eqn:Hr; [|done]. simpl. f_equal.
    unfold moved. rewrite decide_False by done. rewrite app_nil_r.
    rewrite without_notin by (by eapply wf_notin_other). apply Person_eta.
  - by eapply reach_owner_set.
Qed.

Lemma self_transfer_moves_last_witness :
  exists h', owner_set 0%nat 0%nat test_heap = Ok h' /\
    persons h' !! 0%nat = Some (mkPerson "Alice" [1%nat; 0%nat]).
Proof.
  destruct (self_transfer_moves_last test_heap 0%nat (mkBuilding 0%nat (House 50 10))
              (mkPerson "Alice" [0%nat; 1%nat]) reachable_test_heap eq_refl eq_refl)
    as (h' & Hset & Hp & _).
  exists h'. split; [exact Hset|exact Hp].
Defined.

(** *** Taxes *)

Lemma compute_taxes_for_building_kind (p q : person_id) (k : BuildingKind) :
  compute_taxes_for_building (mkBuilding p k) = compute_taxes_for_building (mkBuilding q k).
Proof. reflexivity. Qed.

Lemma res_mapM_Forall2 {A B} (k : A -> res B) (l : list A) (ys : list B) :
  res_mapM k l = Ok ys <-> Forall2 (fun x y => k x = Ok y) l ys.
Proof.
  revert ys. induction l as [|x l IH]; intros ys; simpl.
  - split; [intros [= <-]; constructor|by intros ->%Forall2_nil_inv_l].
  - split.
    + destruct (k x) as [y|e] eqn:Hx; simpl; [|discriminate].
      destruct (res_mapM k l) as [ys'|e]; simpl; [|discriminate].
      intros [= <-]. constructor; [done|]. by apply IH.
    + intros (y & ys' & Hy & Hys & ->)%Forall2_cons_inv_l.
      rewrite Hy. simpl. apply IH in Hys. by rewrite Hys.
Qed.

Lemma res_mapM_app_Ok {A B} (k : A -> res B) (l1 l2 : list A) (ys : list B) :
  res_mapM k (l1 ++ l2) = Ok ys ->
  exists ys1 ys2, res_mapM k l1 = Ok ys1 /\ res_mapM k l2 = Ok ys2 /\ ys = ys1 ++ ys2.
Proof.
  rewrite res_mapM_app.
  destruct (res_mapM k l1) as [ys1|e]; simpl; [|discriminate].
  destruct (res_mapM k l2) as [ys2|e]; simpl; [|discriminate].
  intros [= <-]. eauto.
Qed.

(** In a heap that keeps the invariant, the list comprehension of
    [compute_taxes] finds every building it looks up. *)
Lemma building_taxes_Forall2 (h : heap) (p : person_id) (per : Person) (ts : list float) :
  wf h -> persons h !! p = Some per ->
  building_taxes h (owned_buildings per) = Ok ts <->
  Forall2 (fun b t => exists bd, buildings h !! b = Some bd /\
                                 compute_taxes_for_building bd = Ok t)
          (owned_buildings per) ts.
Proof.
  intros Hwf Hp. unfold building_taxes. rewrite res_mapM_Forall2.
  assert (Hin : forall b, b ∈ owned_buildings per -> is_Some (buildings h !! b)).
  { intros b Hb. destruct (wf_owned h Hwf p per b Hp Hb) as (bd & -> & _). eauto. }
  revert ts. induction (owned_buildings per) as [|b l IH]; intros ts.
  - split; intros ->%Forall2_nil_inv_l; constructor.
  - destruct (Hin b) as [bd Hb]; [left|].
    assert (Hl : forall c, c ∈ l -> is_Some (buildings h !! c))
      by (intros c Hc; apply Hin; by right).
    split; intros (t & ts' & Ht & Hts & ->)%Forall2_cons_inv_l;
      (constructor; [|by apply (IH Hl)]).
    + rewrite (get_building_Some _ _ _ Hb) in Ht. eauto.
    + destruct Ht as (bd' & Hb' & Ht). rewrite (get_building_Some _ _ _ Hb').
      exact Ht.
Qed.

(** C6: [compute_taxes_for_building] is
    LIVING_AREA_TAX_RATE * living_area + GARDEN_AREA_TAX_RATE * garden_area
    with the rates 5.6 and 1.5; [compute_taxes] is the sum, from left to
    right, of [compute_taxes_for_building] over the buildings the person
    owns, in the order of the list; for a person owning nothing it is
    [sum] of the empty list, the [int] 0, which equals 0.0. *)
Theorem taxes_formulas :
  LIVING_AREA_TAX_RATE = 5.6%float /\
  GARDEN_AREA_TAX_RATE = 1.5%float /\
  (forall building,
     compute_taxes_for_building building =
     (la ← float_of_int (living_area building);
      ga ← float_of_int (garden_area building);
      Ok (LIVING_AREA_TAX_RATE * la + GARDEN_AREA_TAX_RATE * ga)%float)) /\
  (forall h p per,
     reachable h -> persons h !! p = Some per ->
     (forall ts,
        Forall2 (fun b t => exists bd, buildings h !! b = Some bd /\
                                       compute_taxes_for_building bd = Ok t)
                (owned_buildings per) ts ->
        compute_taxes h p = py_sum (PyFloat <$> ts) /\
        compute_taxes h p =
          Ok match ts with
             | [] => PyInt 0
             | t :: ts' => PyFloat (foldl PrimFloat.add (0 + t)%float ts')
             end) /\
     ((forall b bd, b ∈ owned_buildings per -> buildings h !! b = Some bd ->
                    is_Ok (compute_taxes_for_building bd)) ->
      is_Ok (compute_taxes h p)) /\
     (owned_buildings per = [] ->
      compute_taxes h p = Ok (PyInt 0) /\ py_eq (PyInt 0) (PyFloat 0.0) = true)).
Proof.
  split; [reflexivity|]. split; [reflexivity|]. split.
  { intros building. unfold compute_taxes_for_building.
    destruct (float_of_int (living_area building)); simpl; [|done].
    by destruct (float_of_int (garden_area building)). }
  intros h p per Hreach Hp. pose proof (reachable_wf h Hreach) as Hwf.
  assert (Hsum : forall ts,
            Forall2 (fun b t => exists bd, buildings h !! b = Some bd /\
                                           compute_taxes_for_building bd = Ok t)
                    (owned_buildings per) ts ->
            compute_taxes h p = py_sum (PyFloat <$> ts)).
  { intros ts Hts. apply (building_taxes_Forall2 h p per ts Hwf Hp) in Hts.
    unfold compute_taxes. rewrite (get_person_Some _ _ _ Hp). simpl.
    by rewrite Hts. }
  split; [|split].
  - intros ts Hts. split; [by apply Hsum|]. rewrite (Hsum ts Hts). apply py_sum_floats.
  - intros Hok. unfold compute_taxes. rewrite (get_person_Some _ _ _ Hp). simpl.
    destruct (res_mapM_is_Ok
                (fun b => bd ← get_building h b; compute_taxes_for_building bd)
                (owned_buildings per)) as [ts Hts].
    + intros b Hb. destruct (wf_owned h Hwf p per b Hp Hb) as (bd & Hbd & _).
      rewrite (get_building_Some _ _ _ Hbd). simpl. by eapply Hok.
    + unfold building_taxes. rewrite Hts. simpl. rewrite py_sum_floats. by eexists.
  - intros Hnil. split; [|reflexivity].
    rewrite (Hsum []); [done|]. rewrite Hnil. constructor.
Qed.

Lemma taxes_formulas_witness :
  compute_taxes test_heap 0%nat = py_sum (PyFloat <$> [295.0; 503.99999999999994]%float) /\
  compute_taxes test_heap 1%nat = Ok (PyInt 0) /\ py_eq (PyInt 0) (PyFloat 0.0) = true.
Proof.
  destruct taxes_formulas as (_ & _ & _ & H).
  destruct (H test_heap 0%nat (mkPerson "Alice" [0%nat; 1%nat]) reachable_test_heap eq_refl)
    as (Halice & _ & _).
  destruct (H test_heap 1%nat (mkPerson "Bob" []) reachable_test_heap eq_refl)
    as (_ & _ & Hbob).
  split; [|exact (Hbob eq_refl)].
  apply Halice. repeat constructor; eexists; (split; [reflexivity|]); vm_compute; reflexivity.
Defined.

(** The taxes of the test-suite, before and after Bob buys the appartment
    building. *)
Example test_taxes :
  compute_taxes_for_building (mkBuilding 0%nat (House 50 10)) = Ok 295.0%float /\
  compute_taxes_for_building
    (mkBuilding 0%nat (AppartmentBuilding [mkAppartment 30; mkAppartment 60]))
    = Ok (LIVING_AREA_TAX_RATE * 90)%float /\
  compute_taxes test_heap 0%nat = Ok (PyFloat 799.0) /\
  compute_taxes test_heap 1%nat = Ok (PyInt 0) /\
  (h' ← owner_set 1%nat 1%nat test_heap;
   a ← compute_taxes h' 0%nat; b ← compute_taxes h' 1%nat; Ok (a, b))
  = Ok (PyFloat 295.0, PyFloat (LIVING_AREA_TAX_RATE * 90)%float).
Proof. repeat split; vm_compute; reflexivity. Qed.

(** The transfer changes no building's areas, so every building is taxed
    after it as before. *)
Lemma building_taxes_after_transfer (h h' : heap) (b : building_id) (bd : Building)
    (q : person_id) (l : list building_id) :
  buildings h !! b = Some bd ->
  (forall c, buildings h' !! c =
             if decide (c = b) then Some (mkBuilding q (kind bd)) else buildings h !! c) ->
  building_taxes h' l = building_taxes h l.
Proof.
  intros Hb Hbld. apply res_mapM_ext. intros c _. unfold get_building.
  rewrite Hbld. destruct (decide (c = b)) as [->|Hne]; [|done].
  rewrite Hb. simpl. by destruct bd.
Qed.

(** C7, as the code has it: when the building [b] of [p] is transferred
    to another person [q], the contributions summed for [p] are the former
    ones without the one of [b], in the same order, and those summed for
    [q] are the former ones followed by the one of [b]; no building's
    contribution changes.  So [compute_taxes(q)] is its former value plus
    [compute_taxes_for_building(b)], and [compute_taxes(p)] is the sum of
    the remaining contributions. *)
Theorem transfer_moves_contribution (h : heap) (p q : person_id) (b : building_id)
    (bd : Building) (perp perq : Person) (tsp tsq : list float) :
  reachable h -> p <> q ->
  buildings h !! b = Some bd -> owner bd = p ->
  persons h !! p = Some perp -> persons h !! q = Some perq ->
  building_taxes h (owned_buildings perp) = Ok tsp ->
  building_taxes h (owned_buildings perq) = Ok tsq ->
  exists h' t ts1 ts2,
    owner_set b q h = Ok h' /\
    compute_taxes_for_building bd = Ok t /\
    tsp = ts1 ++ t :: ts2 /\
    compute_taxes h p = py_sum (PyFloat <$> (ts1 ++ t :: ts2)) /\
    compute_taxes h' p = py_sum (PyFloat <$> (ts1 ++ ts2)) /\
    compute_taxes h q = py_sum (PyFloat <$> tsq) /\
    compute_taxes h' q = py_sum (PyFloat <$> (tsq ++ [t])) /\
    (forall vq, compute_taxes h q = Ok vq ->
                compute_taxes h' q = py_add vq (PyFloat t)) /\
    (forall c bd', buildings h !! c = Some bd' ->
       exists bd'', buildings h' !! c = Some bd'' /\
         compute_taxes_for_building bd'' = compute_taxes_for_building bd').
Proof.
  intros Hreach Hpq Hb Hown Hp Hq Htsp Htsq. subst p.
  pose proof (reachable_wf h Hreach) as Hwf.
  destruct (owner_set_lookup h b bd q Hwf Hb) as (h' & Heq & Hpers & Hbld); [eauto|].
  destruct (wf_owner h Hwf b bd Hb) as (per' & Hp' & Hin).
  assert (per' = perp) as -> by congruence.
  pose proof (wf_nodup h Hwf _ _ Hp) as Hnd.
  destruct (list_remove_elem b _ Hin) as [l' Hl'].
  destruct (list_remove_Ok b _ l' Hl') as (l1 & l2 & Hsplit & -> & Hnot1).
  assert (Hwithout : without b (owned_buildings perp) = l1 ++ l2).
  { rewrite (list_remove_NoDup b _ Hnd Hin) in Hl'. by injection Hl'. }
  assert (Hnotq : b ∉ owned_buildings perq) by (by eapply wf_notin_other).
  rewrite Hsplit in Htsp. unfold building_taxes in Htsp.
  apply res_mapM_app_Ok in Htsp as (ts1 & ts2' & Hts1 & Hts2' & ->).
  simpl in Hts2'. rewrite (get_building_Some _ _ _ Hb) in Hts2'. simpl in Hts2'.
  destruct (compute_taxes_for_building bd) as [t|e] eqn:Ht; simpl in Hts2';
    [|discriminate].
  destruct (res_mapM _ l2) as [ts2|e] eqn:Hts2; simpl in Hts2'; [|discriminate].
  injection Hts2' as <-.
  assert (Hbefore_p : building_taxes h (owned_buildings perp) = Ok (ts1 ++ t :: ts2)).
  { rewrite Hsplit. unfold building_taxes. rewrite res_mapM_app, Hts1. simpl.
    rewrite (get_building_Some _ _ _ Hb). simpl. rewrite Ht. simpl. by rewrite Hts2. }
  assert (Hafter_q : compute_taxes h' q = py_sum (PyFloat <$> (tsq ++ [t]))).
  { unfold compute_taxes, get_person. rewrite Hpers, Hq. simpl.
    rewrite decide_True by done. rewrite without_notin by done.
    rewrite (building_taxes_after_transfer h h' b bd q _ Hb Hbld).
    unfold building_taxes in *. rewrite res_mapM_app, Htsq. simpl.
    rewrite (get_building_Some _ _ _ Hb). simpl. by rewrite Ht. }
  assert (Hbefore_q : compute_taxes h q = py_sum (PyFloat <$> tsq)).
  { unfold compute_taxes. rewrite (get_person_Some _ _ _ Hq). simpl. by rewrite Htsq. }
  exists h', t, ts1, ts2. repeat split; try done.
  - unfold compute_taxes. rewrite (get_person_Some _ _ _ Hp). simpl.
    by rewrite Hbefore_p.
  - unfold compute_taxes, get_person. rewrite Hpers, Hp. simpl.
    rewrite decide_False by done. rewrite app_nil_r, Hwithout.
    rewrite (building_taxes_after_transfer h h' b bd q _ Hb Hbld).
    unfold building_taxes. rewrite res_mapM_app, Hts1. simpl. by rewrite Hts2.
  - intros vq Hvq. rewrite Hafter_q. apply py_sum_floats_snoc. by rewrite <- Hbefore_q.
  - intros c bd' Hc. rewrite Hbld. destruct (decide (c = b)) as [->|Hne]; [|eauto].
    eexists. split; [done|]. assert (bd' = bd) as -> by congruence. by destruct bd.
Qed.

Lemma transfer_moves_contribution_witness :
  exists h' t ts1 ts2,
    owner_set 0%nat 1%nat three_houses = Ok h' /\
    compute_taxes_for_building (mkBuilding 0%nat (House 90 0)) = Ok t /\
    [503.99999999999994; 951.99999999999989; 112]%float = ts1 ++ t :: ts2 /\
    compute_taxes three_houses 0%nat = py_sum (PyFloat <$> (ts1 ++ t :: ts2)) /\
    compute_taxes h' 0%nat = py_sum (PyFloat <$> (ts1 ++ ts2)) /\
    compute_taxes three_houses 1%nat = py_sum (PyFloat <$> []) /\
    compute_taxes h' 1%nat = py_sum (PyFloat <$> ([] ++ [t])) /\
    (forall vq, compute_taxes three_houses 1%nat = Ok vq ->
                compute_taxes h' 1%nat = py_add vq (PyFloat t)) /\
    (forall c bd', buildings three_houses !! c = Some bd' ->
       exists bd'', buildings h' !! c = Some bd'' /\
         compute_taxes_for_building bd'' = compute_taxes_for_building bd').
Proof.
  apply (transfer_moves_contribution three_houses 0%nat 1%nat 0%nat
           (mkBuilding 0%nat (House 90 0))
           (mkPerson "Alice" [0%nat; 1%nat; 2%nat]) (mkPerson "Bob" [])
           [503.99999999999994; 951.99999999999989; 112]%float []
           reachable_three_houses);
    first [lia | by vm_compute].
Defined.

(** C7 as stated fails in float arithmetic: Alice owns houses of 90, 170
    and 20 m²; when Bob gets the first, her taxes go from
    1567.9999999999998 to 1064.0, while the house is taxed
    503.99999999999994, and none of "before - tax == after",
    "before - after == tax" and "after + tax == before" holds. *)
Lemma exact_decrease_counterexample :
  exists h',
    reachable three_houses /\
    owner_set 0%nat 1%nat three_houses = Ok h' /\
    compute_taxes_for_building (mkBuilding 0%nat (House 90 0))
      = Ok 503.99999999999994%float /\
    compute_taxes three_houses 0%nat = Ok (PyFloat 1567.9999999999998) /\
    compute_taxes h' 0%nat = Ok (PyFloat 1064.0) /\
    (b ← py_sub (PyFloat 1567.9999999999998) (PyFloat 503.99999999999994);
     Ok (py_eq b (PyFloat 1064.0))) = Ok false /\
    (d ← py_sub (PyFloat 1567.9999999999998) (PyFloat 1064.0);
     Ok (py_eq d (PyFloat 503.99999999999994))) = Ok false /\
    (a ← py_add (PyFloat 1064.0) (PyFloat 503.99999999999994);
     Ok (py_eq a (PyFloat 1567.9999999999998))) = Ok false.
Proof.
  eexists. split; [exact reachable_three_houses|].
  split; [reflexivity|]. repeat split; vm_compute; reflexivity.
Qed.

(** The test-suite's own transfer shows it too: Alice's taxes go from
    799.0 to 295.0 when the appartment building, taxed 503.99999999999994,
    leaves, and 799.0 - 503.99999999999994 is 295.00000000000006. *)
Example test_suite_decrease_is_rounded :
  (b ← py_sub (PyFloat 799.0) (PyFloat (LIVING_AREA_TAX_RATE * 90));
   Ok (b, py_eq b (PyFloat 295.0)))
  = Ok (PyFloat 295.00000000000006, false).
Proof. vm_compute. reflexivity. Qed.

End BuildingFacts.

(** ** mail.py: display, and the mailbox as it grows *)

Section MailboxFacts.
Import Mail.

Lemma string_app_nil_r (s : string) : s +:+ "" = s.
Proof.
  induction s as [|c s IH]; [reflexivity|].
  change (String c (s +:+ "") = String c s). by rewrite IH.
Qed.

Lemma last_char_app (s1 s2 : string) :
  s2 <> "" -> last_char (s1 +:+ s2) = last_char s2.
Proof.
  intros Hne. induction s1 as [|c s1 IH]; [reflexivity|].
  change (last_char (String c (s1 +:+ s2)) = last_char s2).
  destruct (s1 +:+ s2) as [|c' s'] eqn:Happ.
  - destruct s1; [|discriminate]. simpl in Happ. done.
  - rewrite <- IH. reflexivity.
Qed.

(** Every line is a text that does not end in a closing parenthesis,
    followed by the suffix for invalid mails. *)
Lemma str_body_suffix (m : mail) (s : string) :
  str m = Ok s ->
  exists body tail, tail <> "" /\ last_char tail <> last_char ")" /\
    s = (body +:+ tail) +:+ invalid_str_suffix m.
Proof.
  destruct m as [b f|b v|b]; unfold str, general_info_str;
    destruct (str_of_int (weight_g b)) as [w|e]; simpl; try discriminate.
  - intros [= <-].
    exists ("Lettre : " +:+ w +:+ " g, "
            +:+ DeliveryMode_str (delivery_mode b) +:+ ", pour '"
            +:+ delivery_address b +:+ "', "), (Format_str f).
    split; [by destruct f|]. split; [by destruct f|].
    by rewrite !string_app_assoc.
  - destruct (str_of_int v) as [sv|e]; simpl; [|discriminate]. intros [= <-].
    exists ("Colis : " +:+ w +:+ " g, "
            +:+ DeliveryMode_str (delivery_mode b) +:+ ", pour '"
            +:+ delivery_address b +:+ "', " +:+ sv), " l".
    split; [discriminate|]. split; [discriminate|].
    by rewrite !string_app_assoc.
  - intros [= <-].
    exists ("Publicité : " +:+ w +:+ " g, "
            +:+ DeliveryMode_str (delivery_mode b) +:+ ", pour '"
            +:+ delivery_address b), "'".
    split; [discriminate|]. split; [discriminate|].
    by rewrite !string_app_assoc.
Qed.

(** X1: [str] of a mail raises exactly when an [int] it formats has more
    than 4300 digits, the weight of any mail or the volume of a Parcel,
    and what it raises is [ValueError]; the delivery address and the
    validity of the mail play no part in it. *)
Theorem str_raises_on_long_ints (m : mail) :
  (is_Ok (str m) <->
   Z.abs (weight_g (base_of m)) < 10 ^ 4300 /\
   match m with
   | Parcel _ volume => Z.abs volume < 10 ^ 4300
   | _ => True
   end) /\
  (forall e, str m = Raise e ->
     e = ValueError /\
     (10 ^ 4300 <= Z.abs (weight_g (base_of m)) \/
      exists b volume, m = Parcel b volume /\ 10 ^ 4300 <= Z.abs volume)) /\
  (forall a, is_Ok (str (with_address m a)) <-> is_Ok (str m)).
Proof.
  assert (Hok : forall m : mail, is_Ok (str m) <->
            Z.abs (weight_g (base_of m)) < 10 ^ 4300 /\
            match m with
            | Parcel _ volume => Z.abs volume < 10 ^ 4300
            | _ => True
            end).
  { intros m'. destruct m' as [b f|b v|b]; unfold str, general_info_str; simpl base_of.
    - rewrite <- str_of_int_Ok. destruct (str_of_int (weight_g b)) as [w|e]; simpl.
      + split; [intros _; split; [by eexists|done]|intros _; by eexists].
      + split; [intros [? [=]]|intros [[? [=]] _]].
    - rewrite <- !str_of_int_Ok.
      destruct (str_of_int (weight_g b)) as [w|e]; simpl;
        [destruct (str_of_int v) as [sv|e']; simpl|].
      + split; [intros _; split; by eexists|intros _; by eexists].
      + split; [intros [? [=]]|intros [_ [? [=]]]].
      + split; [intros [? [=]]|intros [[? [=]] _]].
    - rewrite <- str_of_int_Ok. destruct (str_of_int (weight_g b)) as [w|e]; simpl.
      + split; [intros _; split; [by eexists|done]|intros _; by eexists].
      + split; [intros [? [=]]|intros [[? [=]] _]]. }
  split; [apply Hok|]. split.
  - intros e. destruct m as [b f|b v|b]; unfold str, general_info_str; simpl base_of;
      destruct (str_of_int (weight_g b)) as [w|e1] eqn:Hw; simpl;
      try (intros [= <-]; destruct (str_of_int_Raise _ _ Hw) as [-> Hge];
           split; [done|by left]);
      try discriminate.
    destruct (str_of_int v) as [sv|e2] eqn:Hv; simpl; [discriminate|].
    intros [= <-]. destruct (str_of_int_Raise _ _ Hv) as [-> Hge].
    split; [done|]. right. eauto.
  - intros a. rewrite !Hok. by destruct m as [[w md a0] f|[w md a0] v|[w md a0]].
Qed.

(** X2: when [str] gives a line for a mail of any class, the line ends in
    " (invalide)" exactly when the mail is invalid, whatever its address
    holds. *)
Theorem invalid_marker_iff_invalid (m : mail) (s : string) :
  str m = Ok s ->
  ((exists p, s = p +:+ " (invalide)") <-> is_valid m = false).
Proof.
  intros (body & tail & Hne & Hlast & Hstr)%str_body_suffix.
  unfold invalid_str_suffix in Hstr. split.
  - intros [p Hp]. destruct (is_valid m); [|done].
    rewrite string_app_nil_r in Hstr. rewrite Hstr in Hp.
    apply (f_equal last_char) in Hp.
    rewrite (last_char_app body tail Hne) in Hp.
    rewrite (last_char_app p " (invalide)") in Hp by discriminate. done.
  - intros Hinv. rewrite Hinv in Hstr. eauto.
Qed.

Lemma invalid_marker_iff_invalid_witness :
  exists p, "Lettre : 240 g, express, pour '', A4 (invalide)" = p +:+ " (invalide)".
Proof.
  apply (invalid_marker_iff_invalid (Letter (mkMail 240 EXPRESS "") A4));
    vm_compute; reflexivity.
Defined.

Lemma res_mapM_Raise {A B} (k : A -> res B) (l : list A) (e : exn) :
  res_mapM k l = Raise e -> exists x, x ∈ l /\ k x = Raise e.
Proof.
  induction l as [|x l IH]; simpl; [discriminate|].
  destruct (k x) as [y|e'] eqn:Hx; simpl.
  - destruct (res_mapM k l) as [ys|e'']; simpl; [discriminate|].
    intros [= <-]. destruct (IH eq_refl) as (x' & Hin & Hx').
    exists x'. split; [by right|done].
  - intros [= <-]. exists x. split; [left|done].
Qed.

Lemma add_mails_mails (box : Mailbox) (ms : list mail) :
  mails (add_mails box ms) = mails box ++ ms.
Proof.
  revert box. induction ms as [|m ms IH]; intros box.
  - simpl. by rewrite app_nil_r.
  - unfold add_mails in *. simpl foldl. rewrite IH. simpl.
    by rewrite <- app_assoc.
Qed.

(** X3: [display] gives one line per mail, invalid ones included, in the
    order the mails were added, each the [str] of its mail, and it gives
    them exactly when [str] of every mail is defined; otherwise it raises
    the [ValueError] of a mail holding an [int] of more than 4300 digits.
    After [add_mail] the lines are the former ones followed by the line of
    the new mail. *)
Theorem display_lines_and_errors (box : Mailbox) :
  (forall lines, display box = Ok lines <->
                 Forall2 (fun m s => str m = Ok s) (mails box) lines) /\
  (forall lines, display box = Ok lines -> length lines = length (mails box)) /\
  (is_Ok (display box) <-> forall m, m ∈ mails box -> is_Ok (str m)) /\
  (forall e, display box = Raise e ->
     e = ValueError /\ exists m, m ∈ mails box /\ str m = Raise ValueError) /\
  (forall m, display (add_mail box m) =
             (lines ← display box; s ← str m; Ok (lines ++ [s]))) /\
  (forall ms, mails (add_mails box ms) = mails box ++ ms).
Proof.
  unfold display.
  assert (Hraise : forall e, res_mapM str (mails box) = Raise e ->
            e = ValueError /\ exists m, m ∈ mails box /\ str m = Raise ValueError).
  { intros e (m & Hin & Hm)%res_mapM_Raise.
    assert (e = ValueError) as ->.
    { destruct m as [b f|b v|b]; unfold str, general_info_str in Hm;
        destruct (str_of_int (weight_g b)) as [w|e1] eqn:Hw; simpl in Hm;
        try (injection Hm as <-; by destruct (str_of_int_Raise _ _ Hw));
        try discriminate.
      destruct (str_of_int v) as [sv|e2] eqn:Hv; simpl in Hm; [discriminate|].
      injection Hm as <-. by destruct (str_of_int_Raise _ _ Hv). }
    eauto. }
  split; [|split; [|split; [|split; [|split]]]].
  - intros lines. apply res_mapM_Forall2.
  - intros lines Hl%res_mapM_Forall2. symmetry. by eapply Forall2_length.
  - split.
    + intros [lines Hl%res_mapM_Forall2] m Hin.
      apply list_elem_of_lookup_1 in Hin as [i Hi].
      destruct (Forall2_lookup_l _ _ _ _ _ Hl Hi) as (s & _ & Hs). by eexists.
    + apply res_mapM_is_Ok.
  - exact Hraise.
  - intros m. simpl. rewrite res_mapM_app. simpl.
    destruct (res_mapM str (mails box)) as [lines|e]; simpl; [|done].
    by destruct (str m).
  - apply add_mails_mails.
Qed.

Lemma display_lines_and_errors_witness :
  exists m,
    m ∈ mails (add_mail Mailbox_init (Parcel (mkMail 1 NORMAL "") (10 ^ 4300)))
    /\ str m = Raise ValueError.
Proof.
  destruct (display_lines_and_errors
              (add_mail Mailbox_init (Parcel (mkMail 1 NORMAL "") (10 ^ 4300))))
    as (_ & _ & _ & Hraise & _).
  apply (Hraise ValueError). vm_compute. reflexivity.
Defined.

Lemma valid_franks_app (l1 l2 : list mail) :
  valid_franks (l1 ++ l2) =
  (ys1 ← valid_franks l1; ys2 ← valid_franks l2; Ok (ys1 ++ ys2)).
Proof. rewrite !valid_franks_filter, filter_app. apply res_mapM_app. Qed.

Lemma invalid_list_app (l1 l2 : list mail) :
  invalid_list (l1 ++ l2) = invalid_list l1 ++ invalid_list l2.
Proof. rewrite !invalid_list_filter. apply filter_app. Qed.

Lemma Mailbox_frank_Ok (box : Mailbox) (v : pynum) :
  Mailbox_frank box = Ok v ->
  exists xs, valid_franks (mails box) = Ok xs /\ py_sum (PyFloat <$> xs) = Ok v.
Proof.
  unfold Mailbox_frank. destruct (valid_franks (mails box)) as [xs|e]; simpl;
    [eauto|discriminate].
Qed.

(** X4: how [add_mail] changes the totals.  Adding an invalid mail leaves
    [frank] as it was and raises [invalid_mails] by one.  Adding a valid
    mail leaves [invalid_mails] as it was, and [frank] becomes its former
    value plus the franking of the new mail, or raises what the franking of
    the new mail raises. *)
Theorem add_mail_totals (box : Mailbox) (m : mail) :
  (is_valid m = false ->
   Mailbox_frank (add_mail box m) = Mailbox_frank box /\
   invalid_mails (add_mail box m) = invalid_mails box + 1) /\
  (is_valid m = true ->
   invalid_mails (add_mail box m) = invalid_mails box /\
   (forall v x, Mailbox_frank box = Ok v -> frank m = Ok x ->
                Mailbox_frank (add_mail box m) = py_add v (PyFloat x)) /\
   (forall v e, Mailbox_frank box = Ok v -> frank m = Raise e ->
                Mailbox_frank (add_mail box m) = Raise e)).
Proof.
  unfold invalid_mails, Mailbox_frank, add_mail. simpl mails.
  rewrite valid_franks_app, invalid_list_app, length_app. simpl.
  split; intros Hm; rewrite Hm; simpl.
  - split; [|lia]. destruct (valid_franks (mails box)) as [xs|e]; simpl; [|done].
    by rewrite app_nil_r.
  - split; [lia|]. split.
    + intros v x Hv Hx. rewrite Hx. simpl.
      destruct (valid_franks (mails box)) as [xs|e]; simpl in *; [|discriminate].
      by apply py_sum_floats_snoc.
    + intros v e Hv He. rewrite He. simpl.
      destruct (valid_franks (mails box)) as [xs|e']; simpl in *; [done|discriminate].
Qed.

Lemma add_mail_totals_witness :
  Mailbox_frank
    (add_mail (add_mail Mailbox_init (Letter (mkMail 180 NORMAL "dest") A5))
       (Parcel (mkMail 1800 NORMAL "dest") 2))
  = py_add (PyFloat 1.68) (PyFloat 2.30) /\
  invalid_mails (add_mail test_mailbox (Advertisement (mkMail 240 EXPRESS "")))
  = invalid_mails test_mailbox + 1.
Proof.
  split.
  - apply (add_mail_totals
             (add_mail Mailbox_init (Letter (mkMail 180 NORMAL "dest") A5))
             (Parcel (mkMail 1800 NORMAL "dest") 2)); reflexivity.
  - apply (add_mail_totals test_mailbox (Advertisement (mkMail 240 EXPRESS ""))).
    reflexivity.
Defined.

Lemma float_of_int_Raise (z : Z) (e : exn) :
  float_of_int z = Raise e -> e = OverflowError.
Proof.
  unfold float_of_int. destruct (PrimFloat.is_infinity _); [|discriminate].
  by intros [= <-].
Qed.

Lemma frank_Raise (m : mail) (e : exn) :
  frank m = Raise e ->
  e = OverflowError /\
  (float_of_int (weight_g (base_of m)) = Raise OverflowError \/
   exists b volume, m = Parcel b volume /\ float_of_int volume = Raise OverflowError).
Proof.
  unfold frank, frank_normal, weight_kg.
  destruct m as [b f|b v|b]; simpl;
    try (destruct (float_of_int v) as [fv|ev] eqn:Hv; simpl;
         [|intros [= <-]; pose proof (float_of_int_Raise _ _ Hv) as ->;
           split; [done|]; right; eauto]);
    (destruct (float_of_int (weight_g b)) as [w|ew] eqn:Hw; simpl;
     [destruct (delivery_mode b); discriminate
     |intros [= <-]; pose proof (float_of_int_Raise _ _ Hw) as ->;
      split; [done|]; by left]).
Qed.

(** X5: [Mailbox.frank] raises only when the franking of one of its valid
    mails raises, and then it is that [OverflowError] of an [int] too large
    for a [float]: the weight of the mail, or the volume of a Parcel.
    Otherwise it returns a number. *)
Theorem mailbox_frank_errors (box : Mailbox) :
  (is_Ok (Mailbox_frank box) <->
   forall m, m ∈ mails box -> is_valid m = true -> is_Ok (frank m)) /\
  (forall e, Mailbox_frank box = Raise e ->
     e = OverflowError /\
     exists m, m ∈ mails box /\ is_valid m = true /\ frank m = Raise OverflowError /\
       (float_of_int (weight_g (base_of m)) = Raise OverflowError \/
        exists b volume, m = Parcel b volume /\
                         float_of_int volume = Raise OverflowError)).
Proof.
  assert (Hraise : forall e, Mailbox_frank box = Raise e ->
            exists m, m ∈ mails box /\ is_valid m = true /\ frank m = Raise e).
  { intros e. unfold Mailbox_frank. rewrite valid_franks_filter.
    destruct (res_mapM frank _) as [xs|e'] eqn:Hxs; simpl.
    - rewrite py_sum_floats. discriminate.
    - intros [= <-]. apply res_mapM_Raise in Hxs as (m & Hin & Hm).
      apply list_elem_of_filter in Hin as [Hv Hin]. eauto. }
  split.
  - split.
    + intros [v Hv] m Hin Hvalid. destruct (frank m) as [x|e] eqn:Hm; [by eexists|].
      exfalso. apply Mailbox_frank_Ok in Hv as (xs & Hxs & _).
      rewrite valid_franks_filter in Hxs. apply res_mapM_Forall2 in Hxs.
      assert (Hin' : m ∈ filter (fun m => is_valid m = true) (mails box))
        by (by apply list_elem_of_filter).
      apply list_elem_of_lookup_1 in Hin' as [i Hi].
      destruct (Forall2_lookup_l _ _ _ _ _ Hxs Hi) as (x & _ & Hx). congruence.
    + intros Hok. destruct (Mailbox_frank box) as [v|e] eqn:Hbox; [by eexists|].
      destruct (Hraise e eq_refl) as (m & Hin & Hvalid & Hm).
      destruct (Hok m Hin Hvalid) as [x Hx]. congruence.
  - intros e He. destruct (Hraise e He) as (m & Hin & Hvalid & Hm).
    destruct (frank_Raise m e Hm) as [-> Hwhy]. split; [done|].
    exists m. done.
Qed.

Lemma mailbox_frank_errors_witness :
  exists m, m ∈ mails (add_mail test_mailbox (Letter (mkMail (2 ^ 1024) NORMAL "dest") A4))
    /\ is_valid m = true /\ frank m = Raise OverflowError /\
    (float_of_int (weight_g (base_of m)) = Raise OverflowError \/
     exists b volume, m = Parcel b volume /\ float_of_int volume = Raise OverflowError).
Proof.
  apply (proj2 (mailbox_frank_errors
                  (add_mail test_mailbox (Letter (mkMail (2 ^ 1024) NORMAL "dest") A4)))
               OverflowError).
  vm_compute. reflexivity.
Defined.

Lemma invalid_list_length (l : list mail) :
  (length (invalid_list l) <= length l)%nat /\
  (length (invalid_list l) = 0%nat <-> forall m, m ∈ l -> is_valid m = true) /\
  (length (invalid_list l) = length l <-> forall m, m ∈ l -> is_valid m = false).
Proof.
  induction l as [|m l (IHle & IH0 & IHall)]; simpl.
  - split; [lia|]. split; (split; [intros _ m Hm; by apply elem_of_nil in Hm|done]).
  - destruct (is_valid m) eqn:Hm; simpl.
    + split; [lia|]. split.
      * rewrite IH0. split.
        -- intros H m' [->|Hin]%elem_of_cons; [done|by apply H].
        -- intros H m' Hin. apply H. by right.
      * split; [lia|]. intros H. specialize (H m). rewrite Hm in H.
        discriminate H. left.
    + split; [lia|]. split.
      * split; [lia|]. intros H. specialize (H m). rewrite Hm in H.
        discriminate H. left.
      * split.
        -- intros Hlen m' [->|Hin]%elem_of_cons; [done|].
           apply (proj1 IHall); [lia|done].
        -- intros H. f_equal. apply (proj2 IHall). intros m' Hin. apply H. by right.
Qed.

Lemma filter_valid_nil (l : list mail) :
  (forall m, m ∈ l -> is_valid m = false) ->
  filter (fun m => is_valid m = true) l = [].
Proof.
  induction l as [|m l IH]; intros Hinv; [done|].
  rewrite filter_cons_False.
  - apply IH. intros m' Hin. apply Hinv. by right.
  - rewrite (Hinv m) by left. discriminate.
Qed.

(** X6: [invalid_mails] lies between 0 and the number of mails; it is 0
    exactly when every mail is valid and the number of mails exactly when
    none is; and a mailbox without a valid mail, the empty one included,
    franks to the [int] 0. *)
Theorem invalid_mails_bounds (box : Mailbox) :
  0 <= invalid_mails box <= Z.of_nat (length (mails box)) /\
  (invalid_mails box = 0 <-> forall m, m ∈ mails box -> is_valid m = true) /\
  (invalid_mails box = Z.of_nat (length (mails box)) <->
   forall m, m ∈ mails box -> is_valid m = false) /\
  ((forall m, m ∈ mails box -> is_valid m = false) ->
   Mailbox_frank box = Ok (PyInt 0)).
Proof.
  unfold invalid_mails.
  destruct (invalid_list_length (mails box)) as (Hle & H0 & Hall).
  split; [lia|]. split; [|split].
  - rewrite <- H0. lia.
  - rewrite <- Hall. lia.
  - intros Hinv. unfold Mailbox_frank. rewrite valid_franks_filter.
    by rewrite (filter_valid_nil _ Hinv).
Qed.

Lemma invalid_mails_bounds_witness :
  Mailbox_frank
    (add_mail (add_mail Mailbox_init (Letter (mkMail 240 EXPRESS "") A4))
       (Parcel (mkMail 15000 EXPRESS "dest") 200))
  = Ok (PyInt 0).
Proof.
  apply invalid_mails_bounds. intros m Hm. simpl in Hm.
  apply elem_of_cons in Hm as [->|Hm]; [reflexivity|].
  apply list_elem_of_singleton in Hm as ->. reflexivity.
Defined.

End MailboxFacts.

(** ** buildings.py: errors, frames and compositions of the operations *)

Section OwnershipFacts.
Import Buildings.

(** The setter on any heap, also one whose lists were edited by hand. *)
Lemma owner_set_unfold (h : heap) (b : building_id) (q : person_id) (bd : Building)
    (old : Person) :
  buildings h !! b = Some bd -> persons h !! owner bd = Some old ->
  owner_set b q h =
  (l ← list_remove b (owned_buildings old);
   let ps := <[owner bd := mkPerson (full_name old) l]> (persons h) in
   match ps !! q with
   | Some new =>
       Ok (mkHeap (<[q := mkPerson (full_name new) (owned_buildings new ++ [b])]> ps)
                  (<[b := mkBuilding q (kind bd)]> (buildings h)))
   | None => Raise NoSuchObject
   end).
Proof.
  intros Hb Hp. unfold owner_set. rewrite (get_building_Some _ _ _ Hb). simpl.
  rewrite (get_person_Some _ _ _ Hp). simpl.
  destruct (list_remove b (owned_buildings old)) as [l|e]; simpl; [|done].
  rewrite (set_owned_Some _ _ _ _ Hp). simpl.
  unfold get_person, set_owned, get_person. simpl.
  by destruct (_ !! q).
Qed.

Lemma owner_set_Ok (h h' : heap) (b : building_id) (q : person_id) :
  owner_set b q h = Ok h' ->
  exists bd old l new,
    buildings h !! b = Some bd /\ persons h !! owner bd = Some old /\
    list_remove b (owned_buildings old) = Ok l /\
    <[owner bd := mkPerson (full_name old) l]> (persons h) !! q = Some new /\
    h' = mkHeap
           (<[q := mkPerson (full_name new) (owned_buildings new ++ [b])]>
              (<[owner bd := mkPerson (full_name old) l]> (persons h)))
           (<[b := mkBuilding q (kind bd)]> (buildings h)).
Proof.
  intros Hset.
  destruct (buildings h !! b) as [bd|] eqn:Hb;
    [|unfold owner_set, get_building in Hset; by rewrite Hb in Hset].
  destruct (persons h !! owner bd) as [old|] eqn:Hp;
    [|unfold owner_set, get_building, get_person in Hset; rewrite Hb in Hset;
      simpl in Hset; by rewrite Hp in Hset].
  rewrite (owner_set_unfold h b q bd old Hb Hp) in Hset.
  destruct (list_remove b (owned_buildings old)) as [l|e] eqn:Hl; simpl in Hset; [|done].
  destruct (_ !! q) as [new|] eqn:Hq; [|done].
  injection Hset as <-. exists bd, old, l, new. done.
Qed.

Lemma Building_init_Ok (h h' : heap) (p : person_id) (k : BuildingKind)
    (b : building_id) :
  Building_init p k h = Ok (b, h') ->
  exists per, persons h !! p = Some per /\ b = length (buildings h) /\
    h' = mkHeap (<[p := mkPerson (full_name per) (owned_buildings per ++ [b])]> (persons h))
                (buildings h ++ [mkBuilding p k]).
Proof.
  unfold Building_init, get_person, set_owned, get_person. simpl.
  destruct (persons h !! p) as [per|]; simpl; [|discriminate].
  intros [= <- <-]. eauto.
Qed.

Lemma list_remove_Raise (x : building_id) (l : list building_id) :
  (x ∉ l -> list_remove x l = Raise ValueError) /\
  (forall e, list_remove x l = Raise e -> e = ValueError /\ x ∉ l).
Proof.
  induction l as [|y l [IH1 IH2]]; simpl.
  - split; [done|]. intros e [= <-]. split; [done|apply not_elem_of_nil].
  - destruct (decide (y = x)) as [->|Hne].
    + split; [|discriminate]. intros H. exfalso. apply H. left.
    + split.
      * intros [_ Hnot]%not_elem_of_cons. by rewrite (IH1 Hnot).
      * intros e. destruct (list_remove x l) as [l'|e'] eqn:Hl; simpl; [discriminate|].
        intros [= <-]. destruct (IH2 e' eq_refl) as [-> Hnot]. split; [done|].
        by apply not_elem_of_cons.
Qed.

(** X7: the getter of [owner] reads back what was last written: after the
    construction of a building it gives the initial owner, after
    [b.owner = q] it gives [q], and neither changes the owner any other
    building has. *)
Theorem owner_get_reads_back (h h' : heap) (b : building_id) (p : person_id)
    (k : BuildingKind) :
  (Building_init p k h = Ok (b, h') ->
   owner_get b h' = Ok p /\
   forall c, c <> b -> owner_get c h' = owner_get c h) /\
  (owner_set b p h = Ok h' ->
   owner_get b h' = Ok p /\
   forall c, c <> b -> owner_get c h' = owner_get c h).
Proof.
  unfold owner_get, get_building. split.
  - intros (per & Hp & -> & ->)%Building_init_Ok. simpl.
    rewrite list_lookup_middle by done. simpl. split; [done|].
    intros c Hc. destruct (decide (c < length (buildings h))%nat) as [Hlt|Hge].
    + by rewrite lookup_app_l.
    + rewrite !lookup_ge_None_2; [done|lia|]. rewrite length_app. simpl. lia.
  - intros (bd & old & l & new & Hb & _ & _ & _ & ->)%owner_set_Ok. simpl.
    apply lookup_lt_Some in Hb as Hlt. rewrite list_lookup_insert_eq by done.
    split; [done|]. intros c Hc. by rewrite list_lookup_insert_ne.
Qed.

Lemma owner_get_reads_back_witness :
  exists h', owner_set 1%nat 1%nat test_heap = Ok h' /\ owner_get 1%nat h' = Ok 1%nat.
Proof.
  eexists. split; [reflexivity|].
  eapply (proj2 (owner_get_reads_back test_heap _ 1%nat 1%nat (House 0 0))).
  reflexivity.
Defined.

(** X8: when the building is missing from the list of the person recorded
    as its owner, as after an edit of [owned_buildings] by hand, the setter
    raises the [ValueError] of [list.remove], and only then; otherwise it
    succeeds.  [list.remove] takes out the first occurrence only, so a
    building entered twice in its owner's list is still in that list after
    it was transferred away. *)
Theorem owner_set_ValueError (h : heap) (b : building_id) (q : person_id)
    (bd : Building) (old : Person) :
  buildings h !! b = Some bd -> persons h !! owner bd = Some old ->
  (owner_set b q h = Raise ValueError <-> b ∉ owned_buildings old) /\
  (is_Some (persons h !! q) ->
   (is_Ok (owner_set b q h) <-> b ∈ owned_buildings old)) /\
  (forall l1 l2 h', owned_buildings old = l1 ++ b :: l2 -> b ∉ l1 ->
     q <> owner bd -> owner_set b q h = Ok h' ->
     persons h' !! owner bd = Some (mkPerson (full_name old) (l1 ++ l2)) /\
     (b ∈ l2 -> forall per, persons h' !! owner bd = Some per ->
                b ∈ owned_buildings per)).
Proof.
  intros Hb Hp. rewrite (owner_set_unfold h b q bd old Hb Hp).
  apply lookup_lt_Some in Hp as Hplt.
  destruct (list_remove_Raise b (owned_buildings old)) as [Hnotin Hraise].
  split; [|split].
  - split.
    + destruct (list_remove b (owned_buildings old)) as [l|e] eqn:Hl; simpl.
      * destruct (_ !! q); discriminate.
      * intros _. by destruct (Hraise e eq_refl).
    + intros Hnot. by rewrite (Hnotin Hnot).
  - intros [perq Hq]. apply lookup_lt_Some in Hq as Hqlt. split.
    + intros [h' Hh']. destruct (decide (b ∈ owned_buildings old)) as [|Hnot]; [done|].
      rewrite (Hnotin Hnot) in Hh'. discriminate.
    + intros Hin. destruct (list_remove_elem b _ Hin) as [l ->]. simpl.
      destruct (lookup_lt_is_Some_2 (<[owner bd := mkPerson (full_name old) l]> (persons h)) q)
        as [new ->]; [by rewrite length_insert|]. by eexists.
  - intros l1 l2 h' Hsplit Hnot1 Hne.
    assert (Hl : list_remove b (owned_buildings old) = Ok (l1 ++ l2)).
    { rewrite Hsplit. clear Hsplit. induction l1 as [|y l1 IH]; simpl.
      - by rewrite decide_True.
      - apply not_elem_of_cons in Hnot1 as [Hy Hnot1].
        rewrite decide_False by done. by rewrite (IH Hnot1). }
    rewrite Hl. simpl. destruct (_ !! q) as [new|]; [|discriminate].
    intros [= <-]. simpl. rewrite list_lookup_insert_ne by done.
    rewrite list_lookup_insert_eq by done. split; [done|].
    intros Hin per [= <-]. simpl. apply elem_of_app. by right.
Qed.

Lemma owner_set_ValueError_witness :
  owner_set 0%nat 1%nat
    (mkHeap [mkPerson "Alice" []; mkPerson "Bob" []] [mkBuilding 0%nat (House 50 10)])
  = Raise ValueError.
Proof.
  apply (owner_set_ValueError
           (mkHeap [mkPerson "Alice" []; mkPerson "Bob" []] [mkBuilding 0%nat (House 50 10)])
           0%nat 1%nat (mkBuilding 0%nat (House 50 10)) (mkPerson "Alice" [])
           eq_refl eq_refl).
  apply not_elem_of_nil.
Defined.

Lemma fmap_insert_same {A B} (f : A -> B) (l : list A) (i : nat) (x y : A) :
  l !! i = Some y -> f x = f y -> f <$> <[i := x]> l = f <$> l.
Proof.
  intros Hi Hf. rewrite list_fmap_insert. apply list_insert_id.
  rewrite list_lookup_fmap, Hi. simpl. by rewrite Hf.
Qed.

(** X9: what a transfer leaves alone.  The setter creates and deletes no
    person and no building, and changes no name and no area; the buildings
    other than [b] keep their owner; and a person that is neither the old
    nor the new owner keeps the same list and the same taxes.  This holds
    on any heap on which the setter succeeds. *)
Theorem owner_set_frame (h h' : heap) (b : building_id) (q : person_id) :
  owner_set b q h = Ok h' ->
  exists bd, buildings h !! b = Some bd /\
    full_name <$> persons h' = full_name <$> persons h /\
    kind <$> buildings h' = kind <$> buildings h /\
    (forall c, c <> b -> buildings h' !! c = buildings h !! c) /\
    (forall r, r <> q -> r <> owner bd ->
       persons h' !! r = persons h !! r /\ compute_taxes h' r = compute_taxes h r).
Proof.
  intros (bd & old & l & new & Hb & Hp & Hl & Hq & ->)%owner_set_Ok.
  exists bd. simpl. split; [done|]. split; [|split; [|split]].
  - erewrite fmap_insert_same; [|exact Hq|reflexivity].
    by erewrite fmap_insert_same; [|exact Hp|reflexivity].
  - by erewrite fmap_insert_same; [|exact Hb|reflexivity].
  - intros c Hc. by rewrite list_lookup_insert_ne.
  - intros r Hrq Hrp.
    assert (Hr : <[q:=mkPerson (full_name new) (owned_buildings new ++ [b])]>
                   (<[owner bd:=mkPerson (full_name old) l]> (persons h)) !! r
                 = persons h !! r)
      by (by rewrite !list_lookup_insert_ne).
    split; [done|]. unfold compute_taxes, get_person. simpl. rewrite Hr.
    destruct (persons h !! r) as [per|]; simpl; [|done].
    rewrite (building_taxes_after_transfer h _ b bd q (owned_buildings per) Hb); [done|].
    intros c. simpl. rewrite list_lookup_insert. apply lookup_lt_Some in Hb as Hlt.
    destruct (decide (c = b)) as [->|Hne].
    + by rewrite decide_True.
    + by rewrite decide_False by (intros [? _]; done).
Qed.

Lemma owner_set_frame_witness :
  exists h' bd, owner_set 1%nat 1%nat three_houses = Ok h' /\
    buildings three_houses !! 1%nat = Some bd /\
    full_name <$> persons h' = full_name <$> persons three_houses /\
    kind <$> buildings h' = kind <$> buildings three_houses /\
    (forall c, c <> 1%nat -> buildings h' !! c = buildings three_houses !! c) /\
    (forall r, r <> 1%nat -> r <> owner bd ->
       persons h' !! r = persons three_houses !! r /\
       compute_taxes h' r = compute_taxes three_houses r).
Proof.
  eexists. 
  destruct (owner_set_frame three_houses _ 1%nat 1%nat eq_refl) as (bd & H).
  exists bd. split; [reflexivity|exact H].
Defined.

Lemma without_without_snoc (b : building_id) (l x : list building_id) :
  (x = [b] \/ x = []) -> without b (without b l ++ x) = without b l.
Proof.
  intros Hx. rewrite without_app.
  assert (without b x = []) as -> by (destruct Hx as [->| ->]; [apply without_cons_eq|done]).
  rewrite app_nil_r. apply without_notin. intros [? _]%elem_of_without. done.
Qed.

(** X10: a building given to [q] and then given back to its former owner
    [p] leaves the heap exactly as assigning [p] to [b.owner] at once does:
    everybody else, [q] included, has the same list as before, and [b] is
    at the end of the list of [p]. *)
Theorem transfer_and_back (h h1 : heap) (b : building_id) (bd : Building)
    (q : person_id) :
  reachable h -> buildings h !! b = Some bd -> owner_set b q h = Ok h1 ->
  exists h2 perp,
    owner_set b (owner bd) h1 = Ok h2 /\ owner_set b (owner bd) h = Ok h2 /\
    persons h !! owner bd = Some perp /\
    persons h2 !! owner bd =
      Some (mkPerson (full_name perp) (without b (owned_buildings perp) ++ [b])) /\
    buildings h2 = buildings h /\
    (forall r, r <> owner bd -> persons h2 !! r = persons h !! r).
Proof.
  intros Hreach Hb Hset. pose proof (reachable_wf h Hreach) as Hwf.
  destruct (owner_set_inv _ _ _ _ Hset) as (bd' & Hb' & Hq).
  assert (bd' = bd) as -> by congruence.
  destruct (owner_set_lookup h b bd q Hwf Hb Hq) as (h1' & Heq1 & Hpers1 & Hbld1).
  assert (h1' = h1) as -> by congruence.
  pose proof (wf_owner_set _ _ _ _ Hwf Hset) as Hwf1.
  destruct (wf_owner h Hwf b bd Hb) as (perp & Hp & Hin).
  assert (Hb1 : buildings h1 !! b = Some (mkBuilding q (kind bd)))
    by (by rewrite Hbld1, decide_True).
  destruct (owner_set_lookup h1 b _ (owner bd) Hwf1 Hb1) as (h2 & Heq2 & Hpers2 & Hbld2).
  { rewrite Hpers1, Hp. by eexists. }
  destruct (owner_set_lookup h b bd (owner bd) Hwf Hb) as (h3 & Heq3 & Hpers3 & Hbld3);
    [eauto|].
  assert (Hpers : forall r, persons h2 !! r = persons h3 !! r).
  { intros r. rewrite Hpers2, Hpers1, Hpers3.
    destruct (persons h !! r) as [per|]; [|done]. simpl. f_equal.
    unfold moved. simpl. f_equal. f_equal. apply without_without_snoc.
    destruct (decide (r = q)); auto. }
  assert (Hbld : forall c, buildings h2 !! c = buildings h3 !! c).
  { intros c. rewrite Hbld2, Hbld3, Hbld1. by destruct (decide (c = b)). }
  assert (h2 = h3) as <-.
  { destruct h2 as [ps2 bs2], h3 as [ps3 bs3]. simpl in *.
    f_equal; by apply list_eq. }
  exists h2, perp. split; [done|]. split; [done|]. split; [done|].
  split; [|split].
  - rewrite Hpers3, Hp. simpl. unfold moved. by rewrite decide_True.
  - apply list_eq. intros c. rewrite Hbld3.
    destruct (decide (c = b)) as [->|]; [|done]. rewrite Hb. by destruct bd.
  - intros r Hr. rewrite Hpers3. destruct (persons h !! r) as [per|] eqn:Hper; [|done].
    simpl. f_equal. unfold moved. rewrite decide_False by done. rewrite app_nil_r.
    rewrite (without_notin b _ (wf_notin_other h b bd r per Hwf Hb Hper Hr)).
    apply Person_eta.
Qed.

Lemma transfer_and_back_witness :
  exists h1 h2,
    owner_set 0%nat 1%nat test_heap = Ok h1 /\
    owner_set 0%nat 0%nat h1 = Ok h2 /\ owner_set 0%nat 0%nat test_heap = Ok h2 /\
    persons h2 !! 0%nat = Some (mkPerson "Alice" [1%nat; 0%nat]) /\
    persons h2 !! 1%nat = Some (mkPerson "Bob" []).
Proof.
  eexists.
  destruct (transfer_and_back test_heap _ 0%nat (mkBuilding 0%nat (House 50 10)) 1%nat
              reachable_test_heap eq_refl eq_refl)
    as (h2 & perp & H1 & H2 & Hp & Hp2 & _ & Hothers).
  exists h2. split; [reflexivity|]. split; [exact H1|]. split; [exact H2|].
  split.
  - injection Hp as <-. exact Hp2.
  - rewrite (Hothers 1%nat) by discriminate. reflexivity.
Defined.

Lemma building_taxes_existing (h : heap) (ps : list Person) (bs : list Building)
    (l : list building_id) :
  (forall c, c ∈ l -> is_Some (buildings h !! c)) ->
  building_taxes (mkHeap ps (buildings h ++ bs)) l = building_taxes h l.
Proof.
  intros Hl. apply res_mapM_ext. intros c Hc. unfold get_building. simpl.
  destruct (Hl c Hc) as [bd Hbd]. by rewrite (lookup_app_l_Some _ _ _ _ Hbd), Hbd.
Qed.

Lemma building_taxes_app (h : heap) (l1 l2 : list building_id) :
  building_taxes h (l1 ++ l2) =
  (ts1 ← building_taxes h l1; ts2 ← building_taxes h l2; Ok (ts1 ++ ts2)).
Proof. apply res_mapM_app. Qed.

Lemma compute_taxes_Some (h : heap) (p : person_id) (per : Person) :
  persons h !! p = Some per ->
  compute_taxes h p =
  (ts ← building_taxes h (owned_buildings per); py_sum (PyFloat <$> ts)).
Proof. intros Hp. unfold compute_taxes. by rewrite (get_person_Some _ _ _ Hp). Qed.

Lemma compute_taxes_Ok (h : heap) (p : person_id) (v : pynum) :
  compute_taxes h p = Ok v ->
  exists per ts, persons h !! p = Some per /\
    building_taxes h (owned_buildings per) = Ok ts /\ py_sum (PyFloat <$> ts) = Ok v.
Proof.
  unfold compute_taxes, get_person.
  destruct (persons h !! p) as [per|]; simpl; [|discriminate].
  destruct (building_taxes h (owned_buildings per)) as [ts|e] eqn:Hts; simpl;
    [|discriminate].
  intros Hsum. exists per, ts. done.
Qed.

(** X11: what the constructors do to the taxes.  A new person owes the
    [int] 0 and everybody else owes what they did.  After a building is
    constructed for [p], [compute_taxes(p)] is its former value plus
    [compute_taxes_for_building] of the new building, and everybody else
    owes what they did. *)
Theorem constructors_and_taxes (h : heap) :
  reachable h ->
  (forall name,
     compute_taxes (Person_init name h).2 (Person_init name h).1 = Ok (PyInt 0) /\
     forall r, r <> (Person_init name h).1 ->
               compute_taxes (Person_init name h).2 r = compute_taxes h r) /\
  (forall p k b h' v t,
     Building_init p k h = Ok (b, h') ->
     compute_taxes h p = Ok v ->
     compute_taxes_for_building (mkBuilding p k) = Ok t ->
     compute_taxes h' p = py_add v (PyFloat t) /\
     forall r, r <> p -> compute_taxes h' r = compute_taxes h r).
Proof.
  intros Hreach. pose proof (reachable_wf h Hreach) as Hwf. split.
  - intros name. unfold Person_init, compute_taxes, get_person. simpl. split.
    + by rewrite list_lookup_middle.
    + intros r Hr. destruct (decide (r < length (persons h))%nat) as [Hlt|Hge].
      * by rewrite lookup_app_l.
      * rewrite !lookup_ge_None_2; [done|lia|]. rewrite length_app. simpl. lia.
  - intros p k b h' v t (per & Hp & -> & ->)%Building_init_Ok Hv Ht.
    assert (Hexist : forall r per', persons h !! r = Some per' ->
              forall c, c ∈ owned_buildings per' -> is_Some (buildings h !! c)).
    { intros r per' Hr c Hc. destruct (wf_owned h Hwf r per' c Hr Hc) as (bd & -> & _).
      eauto. }
    apply lookup_lt_Some in Hp as Hplt. split.
    + apply compute_taxes_Ok in Hv as (per' & ts & Hp' & Hts & Hsum).
      assert (per' = per) as -> by congruence.
      erewrite compute_taxes_Some; [|simpl; by apply list_lookup_insert_eq].
      simpl owned_buildings. rewrite building_taxes_app.
      rewrite (building_taxes_existing h _ _ _ (Hexist p per Hp)), Hts. simpl.
      unfold building_taxes, get_building. simpl.
      rewrite list_lookup_middle by done. simpl.
      rewrite Ht. simpl. by apply py_sum_floats_snoc.
    + intros r Hr. destruct (persons h !! r) as [per'|] eqn:Hper'.
      * erewrite !compute_taxes_Some;
          [|exact Hper'|simpl; by rewrite list_lookup_insert_ne].
        by rewrite (building_taxes_existing h _ _ _ (Hexist r per' Hper')).
      * unfold compute_taxes, get_person. simpl.
        rewrite list_lookup_insert_ne by done. by rewrite Hper'.
Qed.

Lemma constructors_and_taxes_witness :
  exists h', House_init 1%nat 100 20 test_heap = Ok (2%nat, h') /\
    compute_taxes h' 1%nat = py_add (PyInt 0) (PyFloat (5.6 * 100 + 1.5 * 20)) /\
    compute_taxes h' 0%nat = Ok (PyFloat 799.0).
Proof.
  eexists. split; [reflexivity|].
  destruct (constructors_and_taxes test_heap reachable_test_heap) as [_ H].
  destruct (H 1%nat (House 100 20) 2%nat _ (PyInt 0) (5.6 * 100 + 1.5 * 20)%float
              eq_refl eq_refl eq_refl) as [H1 H2].
  split; [exact H1|]. rewrite (H2 0%nat) by discriminate. reflexivity.
Defined.

Lemma int_sum_from (a : Z) (l : list Z) : foldl Z.add a l = a + int_sum l.
Proof.
  unfold int_sum. revert a. induction l as [|x l IH]; intros a; simpl; [lia|].
  rewrite (IH (a + x)), (IH (0 + x)). lia.
Qed.

Lemma int_sum_cons (x : Z) (l : list Z) : int_sum (x :: l) = x + int_sum l.
Proof. unfold int_sum at 1. simpl. rewrite int_sum_from. lia. Qed.

Lemma int_sum_app (l1 l2 : list Z) : int_sum (l1 ++ l2) = int_sum l1 + int_sum l2.
Proof.
  induction l1 as [|x l1 IH]; simpl; [done|]. rewrite !int_sum_cons, IH. lia.
Qed.

Lemma int_sum_Permutation (l1 l2 : list Z) : l1 ≡ₚ l2 -> int_sum l1 = int_sum l2.
Proof.
  induction 1 as [|x l1 l2 _ IH|x y l|l1 l2 l3 _ IH1 _ IH2];
    rewrite ?int_sum_cons; lia.
Qed.

(** X12: the living area of an appartment building is the sum of the
    living areas of its appartments: 0 without appartments, the area of
    the first appartment plus the living area of the rest otherwise, so
    additive over two runs of appartments and independent of their order.
    Its garden area is 0, a house has the two areas it was built with, and
    an appartment building is taxed like a house of the same living area
    without garden, whoever owns it. *)
Theorem appartment_building_areas (p q : person_id) (a : Appartment)
    (apps1 apps2 : list Appartment) (living garden : Z) :
  living_area (mkBuilding p (AppartmentBuilding [])) = 0 /\
  living_area (mkBuilding p (AppartmentBuilding (a :: apps1))) =
    appartment_living_area a + living_area (mkBuilding p (AppartmentBuilding apps1)) /\
  living_area (mkBuilding p (AppartmentBuilding apps1)) =
    foldr (fun a total => appartment_living_area a + total) 0 apps1 /\
  living_area (mkBuilding p (AppartmentBuilding (apps1 ++ apps2))) =
    living_area (mkBuilding p (AppartmentBuilding apps1))
    + living_area (mkBuilding p (AppartmentBuilding apps2)) /\
  garden_area (mkBuilding p (AppartmentBuilding apps1)) = 0 /\
  living_area (mkBuilding p (House living garden)) = living /\
  garden_area (mkBuilding p (House living garden)) = garden /\
  (apps1 ≡ₚ apps2 ->
   living_area (mkBuilding p (AppartmentBuilding apps1)) =
     living_area (mkBuilding p (AppartmentBuilding apps2)) /\
   compute_taxes_for_building (mkBuilding p (AppartmentBuilding apps1)) =
     compute_taxes_for_building (mkBuilding q (AppartmentBuilding apps2))) /\
  compute_taxes_for_building (mkBuilding p (AppartmentBuilding apps1)) =
    compute_taxes_for_building
      (mkBuilding q (House (living_area (mkBuilding p (AppartmentBuilding apps1))) 0)).
Proof.
  unfold living_area, garden_area. simpl kind. cbv iota beta.
  split; [done|]. split; [by rewrite fmap_cons, int_sum_cons|].
  split; [|split; [|split; [done|split; [done|split; [done|split; [|done]]]]]].
  - induction apps1 as [|a' apps IH]; [done|].
    rewrite fmap_cons, int_sum_cons, IH. done.
  - by rewrite fmap_app, int_sum_app.
  - intros Hperm.
    assert (Hsum : int_sum (appartment_living_area <$> apps1)
                   = int_sum (appartment_living_area <$> apps2))
      by (apply int_sum_Permutation; by rewrite Hperm).
    split; [done|]. unfold compute_taxes_for_building, living_area, garden_area. simpl.
    by rewrite Hsum.
Qed.

Lemma appartment_building_areas_witness :
  living_area (mkBuilding 0%nat (AppartmentBuilding [mkAppartment 30; mkAppartment 60])) =
    living_area (mkBuilding 0%nat (AppartmentBuilding [mkAppartment 60; mkAppartment 30])) /\
  compute_taxes_for_building
    (mkBuilding 0%nat (AppartmentBuilding [mkAppartment 30; mkAppartment 60])) =
  compute_taxes_for_building
    (mkBuilding 1%nat (AppartmentBuilding [mkAppartment 60; mkAppartment 30])).
Proof.
  apply (appartment_building_areas 0%nat 1%nat (mkAppartment 0)
           [mkAppartment 30; mkAppartment 60]
           [mkAppartment 60; mkAppartment 30] 0 0).
  apply Permutation_swap.
Defined.

(** The test-suite's appartment building has 30 + 60 = 90 m². *)
Example test_appartment_building_area :
  living_area (mkBuilding 0%nat (AppartmentBuilding [mkAppartment 30; mkAppartment 60]))
  = 90.
Proof. reflexivity. Qed.

Lemma sum_list_with_insert {A} (f : A -> nat) (l : list A) (i : nat) (x y : A) :
  l !! i = Some y ->
  (sum_list_with f (<[i := x]> l) + f y = sum_list_with f l + f x)%nat.
Proof.
  revert i. induction l as [|z l IH]; intros [|i] Hi; simpl in *; try discriminate.
  - injection Hi as ->. lia.
  - specialize (IH i Hi). lia.
Qed.

Lemma list_remove_length (x : building_id) (l l' : list building_id) :
  list_remove x l = Ok l' -> length l = S (length l').
Proof.
  intros (l1 & l2 & -> & -> & _)%list_remove_Ok. rewrite !length_app. simpl. lia.
Qed.

Lemma owner_set_total_owned (h h' : heap) (b : building_id) (q : person_id) :
  owner_set b q h = Ok h' ->
  total_owned h' = total_owned h /\ length (buildings h') = length (buildings h).
Proof.
  intros (bd & old & l & new & Hb & Hp & Hl & Hq & ->)%owner_set_Ok.
  unfold total_owned. simpl. rewrite length_insert. split; [|done].
  pose proof (sum_list_with_insert (fun per => length (owned_buildings per))
                _ _ (mkPerson (full_name old) l) _ Hp) as H1.
  pose proof (sum_list_with_insert (fun per => length (owned_buildings per))
                _ _ (mkPerson (full_name new) (owned_buildings new ++ [b])) _ Hq) as H2.
  simpl in H1, H2. rewrite length_app in H2. simpl in H2.
  apply list_remove_length in Hl. lia.
Qed.

Lemma Building_init_total_owned (h h' : heap) (p : person_id) (k : BuildingKind)
    (b : building_id) :
  Building_init p k h = Ok (b, h') ->
  total_owned h' = S (total_owned h) /\ length (buildings h') = S (length (buildings h)).
Proof.
  intros (per & Hp & -> & ->)%Building_init_Ok. unfold total_owned. simpl.
  rewrite length_app. simpl. split; [|lia].
  pose proof (sum_list_with_insert (fun per => length (owned_buildings per))
                _ _ (mkPerson (full_name per)
                       (owned_buildings per ++ [length (buildings h)])) _ Hp) as H.
  simpl in H. rewrite length_app in H. simpl in H. lia.
Qed.

(** X13: the lists of all persons together hold as many entries as there
    are buildings, in every heap the constructors and the setter reach:
    constructing a building adds one entry and one building, and a
    transfer moves an entry without adding or losing one, on any heap on
    which it succeeds. *)
Theorem owned_entries_count (h : heap) :
  (reachable h -> total_owned h = length (buildings h)) /\
  (forall b q h', owner_set b q h = Ok h' ->
     total_owned h' = total_owned h /\ length (buildings h') = length (buildings h)) /\
  (forall p k b h', Building_init p k h = Ok (b, h') ->
     total_owned h' = S (total_owned h) /\
     length (buildings h') = S (length (buildings h))).
Proof.
  split; [|split].
  - induction 1 as [|h0 name _ IH|h0 p k b h' _ IH Hinit|h0 b q h' _ IH Hset].
    + reflexivity.
    + unfold total_owned in *. simpl. rewrite sum_list_with_app. simpl. lia.
    + apply Building_init_total_owned in Hinit as [-> ->]. by rewrite IH.
    + apply owner_set_total_owned in Hset as [-> ->]. exact IH.
  - intros b q h'. apply owner_set_total_owned.
  - intros p k b h'. apply Building_init_total_owned.
Qed.

Lemma owned_entries_count_witness :
  total_owned three_houses = length (buildings three_houses).
Proof. apply (owned_entries_count three_houses), reachable_three_houses. Defined.

Lemma compute_taxes_for_building_Raise (bd : Building) (e : exn) :
  compute_taxes_for_building bd = Raise e ->
  e = OverflowError /\
  (float_of_int (living_area bd) = Raise OverflowError \/
   float_of_int (garden_area bd) = Raise OverflowError).
Proof.
  unfold compute_taxes_for_building.
  destruct (float_of_int (living_area bd)) as [la|e1] eqn:Hla; simpl.
  - destruct (float_of_int (garden_area bd)) as [ga|e2] eqn:Hga; simpl; [discriminate|].
    intros [= <-]. pose proof (float_of_int_Raise _ _ Hga) as ->. split; [done|by right].
  - intros [= <-]. pose proof (float_of_int_Raise _ _ Hla) as ->. split; [done|by left].
Qed.

(** X14: in a heap the program reaches, [compute_taxes] of a person
    raises only when [compute_taxes_for_building] of one of the person's
    buildings raises, and then it is the [OverflowError] of an area too
    large for a [float]; otherwise it returns a number.  The garden area
    of an appartment building never is the cause. *)
Theorem compute_taxes_errors (h : heap) (p : person_id) (per : Person) :
  reachable h -> persons h !! p = Some per ->
  (is_Ok (compute_taxes h p) <->
   forall b bd, b ∈ owned_buildings per -> buildings h !! b = Some bd ->
                is_Ok (compute_taxes_for_building bd)) /\
  (forall e, compute_taxes h p = Raise e ->
     e = OverflowError /\
     exists b bd, b ∈ owned_buildings per /\ buildings h !! b = Some bd /\
       compute_taxes_for_building bd = Raise OverflowError /\
       (float_of_int (living_area bd) = Raise OverflowError \/
        (float_of_int (garden_area bd) = Raise OverflowError /\
         exists living garden, kind bd = House living garden))).
Proof.
  intros Hreach Hp. pose proof (reachable_wf h Hreach) as Hwf.
  rewrite (compute_taxes_Some h p per Hp).
  assert (Hraise : forall e,
            (ts ← building_taxes h (owned_buildings per); py_sum (PyFloat <$> ts))
            = Raise e ->
            exists b bd, b ∈ owned_buildings per /\ buildings h !! b = Some bd /\
                         compute_taxes_for_building bd = Raise e).
  { intros e. destruct (building_taxes h (owned_buildings per)) as [ts|e'] eqn:Hts; simpl.
    - rewrite py_sum_floats. discriminate.
    - intros [= <-]. apply res_mapM_Raise in Hts as (b & Hin & Hb).
      destruct (wf_owned h Hwf p per b Hp Hin) as (bd & Hbd & _).
      rewrite (get_building_Some _ _ _ Hbd) in Hb. eauto. }
  split.
  - split.
    + intros [v Hv] b bd Hin Hbd.
      destruct (building_taxes h (owned_buildings per)) as [ts|e] eqn:Hts;
        simpl in Hv; [|discriminate].
      apply res_mapM_Forall2 in Hts. apply list_elem_of_lookup_1 in Hin as [i Hi].
      destruct (Forall2_lookup_l _ _ _ _ _ Hts Hi) as (t & _ & Ht).
      rewrite (get_building_Some _ _ _ Hbd) in Ht. by eexists.
    + intros Hok.
      destruct (ts ← building_taxes h (owned_buildings per); py_sum (PyFloat <$> ts))
        as [v|e] eqn:Hv; [by eexists|].
      destruct (Hraise e eq_refl) as (b & bd & Hin & Hbd & Hb).
      destruct (Hok b bd Hin Hbd) as [t Ht]. congruence.
  - intros e He. destruct (Hraise e He) as (b & bd & Hin & Hbd & Hb).
    destruct (compute_taxes_for_building_Raise bd e Hb) as [-> Hwhy].
    split; [done|]. exists b, bd. split; [done|]. split; [done|]. split; [done|].
    destruct Hwhy as [Hla|Hga]; [by left|right]. split; [done|].
    unfold garden_area in Hga. destruct (kind bd) as [living garden|apps]; [eauto|].
    discriminate Hga.
Qed.

Lemma compute_taxes_errors_witness :
  is_Ok (compute_taxes test_heap 0%nat).
Proof.
  apply (compute_taxes_errors test_heap 0%nat (mkPerson "Alice" [0%nat; 1%nat])
           reachable_test_heap eq_refl).
  intros b bd Hin Hbd. simpl in Hin.
  apply elem_of_cons in Hin as [->|Hin]; [injection Hbd as <-; by eexists|].
  apply list_elem_of_singleton in Hin as ->. injection Hbd as <-. by eexists.
Defined.

End OwnershipFacts.
